(** * IncomingStreamTrackMirrored: a shallow embedding of lib/IncomingStreamTrackMirrored.js

    The class mirrors an incoming stream track: one native multiplexer and
    one native depacketizer per encoding of the original track, an attach
    counter and an event emitter.

    Modelling choices.
    - The original track is an object owned by other code.  It lives in a
      store ([tracks]) and the mirror holds a reference to it ([track], which
      [stop] sets to null), so that every read of [this.track.encodings]
      sees the contents the track has at that moment.
    - JavaScript [Map]s are association lists in insertion order
      ([JsMap]): the loops of the class iterate over [values()].
    - Calls into collaborators that are not part of the class (the original
      track, the packet sources, the native objects, the receiver, the
      event emitter) are recorded, in program order, in the list of entries
      a method returns.  They are taken to return normally.  Each entry is
      stamped with the value the attach counter has at the moment of the
      call.
    - [this.emitter.emit] is such a call: the methods [attached],
      [detached] and [stop] and the sequences of [run] are those of a
      mirror whose listeners do not call its methods.  The module
      [Listening] has the emitter with the listeners of [on], [once] and
      [off], which [emit] runs inside the emitting method and which may
      call methods of the mirror; without listeners the two agree
      ([serve_unheard]).
    - The only exception of the class's own code is the [TypeError] of a
      property access on [null] or [undefined].  A method that throws keeps
      the state changes and the calls it made before the throw.
    - [counter] is a JavaScript number holding an integer that changes by
      one per call; it is modelled in [Z] (exact below 2^53 in magnitude). *)

From Stdlib Require Import ZArith List String Bool Lia.
Import ListNotations.
Local Open Scope string_scope.
Local Open Scope list_scope.
Local Open Scope Z_scope.

(** ** JavaScript Map with string keys, in insertion order *)

Module JsMap.

Definition t (V : Type) : Type := list (string * V).

Definition empty {V : Type} : t V := [].

Fixpoint get {V : Type} (k : string) (m : t V) : option V :=
  match m with
  | [] => None
  | (k', v) :: r => if String.eqb k k' then Some v else get k r
  end.

(** [set] on a present key replaces the value in place, on an absent key
    appends the entry. *)
Fixpoint set {V : Type} (k : string) (v : V) (m : t V) : t V :=
  match m with
  | [] => [(k, v)]
  | (k', v') :: r =>
      if String.eqb k k' then (k, v) :: r else (k', v') :: set k v r
  end.

Definition keys {V : Type} (m : t V) : list string := map fst m.

Definition values {V : Type} (m : t V) : list V := map snd m.

Definition clear {V : Type} (_ : t V) : t V := [].

End JsMap.

(** ** Data *)

(** Identity of an object that lives outside the class. *)
Definition Handle := nat.

Inductive JsValue : Type :=
| VUndefined
| VString (s : string)
| VNumber (z : Z)
| VObject (h : Handle).

(** [encoding.source] of the original track: a packet source with
    [media.ssrc], [AddListener] and [RemoveListener]. *)
Record PacketSource : Type := {
  ps_handle : Handle;
  ps_ssrc : Z
}.

Record Encoding : Type := {
  enc_id : string;
  enc_source : PacketSource
}.

Inductive Query : Type :=
| GetStats | GetActiveLayers | GetId | GetTrackInfo | GetSSRCs | GetMedia.

(** The original IncomingStreamTrack, as far as the mirror uses it:
    [receiver], [encodings] and the results of its query methods. *)
Record SourceTrack : Type := {
  st_receiver : Handle;
  st_encodings : JsMap.t Encoding;
  st_answer : Query -> JsValue
}.

(** Modelled from the spec: Native.RTPIncomingMediaStreamMultiplexer is
    outside lib/IncomingStreamTrackMirrored.js.  The duplication buffer is
    "bound to that encoding's SSRC and time service": its [media.ssrc] is
    the ssrc given to its constructor. *)
Record Multiplexer : Type := {
  mux_handle : Handle;
  mux_ssrc : Z;
  mux_time : Handle
}.

(** Modelled from the spec: Native.RTPIncomingMediaStreamDepacketizer, the
    frame assembler "bound to the DuplicationBuffer". *)
Record Depacketizer : Type := {
  dep_handle : Handle;
  dep_source : Multiplexer
}.

(** The object literal stored in [this.encodings]. *)
Record EncodingMirror : Type := {
  em_id : string;
  em_source : Multiplexer;
  em_depacketizer : Depacketizer
}.

(** The fields of an IncomingStreamTrackMirrored; [None] is [null]. *)
Record Mirror : Type := {
  track : option Handle;
  receiver : option Handle;
  counter : Z;
  encodings : JsMap.t EncodingMirror
}.

(** The objects the mirror shares with the rest of the program: the store
    of original tracks and the allocator of native objects. *)
Record Heap : Type := {
  tracks : Handle -> SourceTrack;
  next : Handle
}.

Record State : Type := {
  this : Mirror;
  heap : Heap
}.

(** ** Calls that leave the class *)

Inductive Action : Type :=
| NewMultiplexer (m : Multiplexer)
| AddListener (src : PacketSource) (m : Multiplexer)
| NewDepacketizer (d : Depacketizer)
| RemoveListener (src : PacketSource) (m : Multiplexer)
| MultiplexerStop (m : Multiplexer)
| DepacketizerStop (d : Depacketizer)
| TrackAttached (t : Handle)
| TrackDetached (t : Handle)
| TrackQuery (t : Handle) (q : Query)
| SendPLI (r : Handle) (ssrc : Z)
| Emit (event : string).

Record Entry : Type := {
  act : Action;
  at_counter : Z
}.

(** ** Methods: state, exceptions and the calls made *)

Inductive JsError : Type := TypeError.

Inductive Outcome (A : Type) : Type :=
| Return (a : A)
| Throw (e : JsError).
Arguments Return {A} a.
Arguments Throw {A} e.

Definition M (A : Type) : Type := State -> Outcome A * State * list Entry.

Definition ret {A : Type} (a : A) : M A := fun s => (Return a, s, []).

Definition throw {A : Type} (e : JsError) : M A := fun s => (Throw e, s, []).

Definition bind {A B : Type} (c : M A) (k : A -> M B) : M B :=
  fun s =>
    match c s with
    | (Return a, s1, l1) =>
        match k a s1 with
        | (o, s2, l2) => (o, s2, l1 ++ l2)
        end
    | (Throw e, s1, l1) => (Throw e, s1, l1)
    end.

Declare Scope js_scope.
Delimit Scope js_scope with js.
Notation "x <- c ;; k" := (bind c (fun x => k))
  (at level 61, c at next level, right associativity) : js_scope.
Notation "c ;; k" := (bind c (fun _ => k))
  (at level 61, right associativity) : js_scope.
Local Open Scope js_scope.

Fixpoint for_each {A : Type} (l : list A) (body : A -> M unit) : M unit :=
  match l with
  | [] => ret tt
  | x :: r => body x ;; for_each r body
  end.

(** A call that leaves the class. *)
Definition call (a : Action) : M unit :=
  fun s => (Return tt, s, [{| act := a; at_counter := counter (this s) |}]).

Definition get_this : M Mirror := fun s => (Return (this s), s, []).

Definition set_this (f : Mirror -> Mirror) : M unit :=
  fun s => (Return tt, {| this := f (this s); heap := heap s |}, []).

(** Property access on a value that may be [null] or [undefined]. *)
Definition deref {A : Type} (o : option A) : M A :=
  match o with
  | Some a => ret a
  | None => throw TypeError
  end.

(** The contents of an original track at the moment of the access. *)
Definition read_track (t : Handle) : M SourceTrack :=
  fun s => (Return (tracks (heap s) t), s, []).

(** [new] of a native object: a handle no other object has. *)
Definition fresh : M Handle :=
  fun s =>
    (Return (next (heap s)),
     {| this := this s;
        heap := {| tracks := tracks (heap s); next := S (next (heap s)) |} |},
     []).

Definition set_track (v : option Handle) (m : Mirror) : Mirror :=
  {| track := v; receiver := receiver m;
     counter := counter m; encodings := encodings m |}.

Definition set_receiver (v : option Handle) (m : Mirror) : Mirror :=
  {| track := track m; receiver := v;
     counter := counter m; encodings := encodings m |}.

Definition set_counter (v : Z) (m : Mirror) : Mirror :=
  {| track := track m; receiver := receiver m;
     counter := v; encodings := encodings m |}.

Definition set_encodings (v : JsMap.t EncodingMirror) (m : Mirror) : Mirror :=
  {| track := track m; receiver := receiver m;
     counter := counter m; encodings := v |}.

(** ** The class *)

(** Body of the loop of the constructor. *)
Definition mirror_encoding (timeService : Handle) (encoding : Encoding)
  : M unit :=
  h <- fresh ;;
  let source :=
    {| mux_handle := h;
       mux_ssrc := ps_ssrc (enc_source encoding);
       mux_time := timeService |} in
  call (NewMultiplexer source) ;;
  call (AddListener (enc_source encoding) source) ;;
  hd <- fresh ;;
  let depacketizer := {| dep_handle := hd; dep_source := source |} in
  call (NewDepacketizer depacketizer) ;;
  set_this (fun m =>
    set_encodings
      (JsMap.set (enc_id encoding)
         {| em_id := enc_id encoding;
            em_source := source;
            em_depacketizer := depacketizer |}
         (encodings m)) m).

(** [new IncomingStreamTrackMirrored(incomingStreamTrack, timeService)]. *)
Definition constructor (incomingStreamTrack timeService : Handle) (h : Heap)
  : Outcome unit * State * list Entry :=
  let t := tracks h incomingStreamTrack in
  for_each (JsMap.values (st_encodings t)) (mirror_encoding timeService)
    {| this := {| track := Some incomingStreamTrack;
                  receiver := Some (st_receiver t);
                  counter := 0;
                  encodings := JsMap.empty |};
       heap := h |}.

(** The mirror a construction leaves. *)
Definition create (incomingStreamTrack timeService : Handle) (h : Heap)
  : State :=
  snd (fst (constructor incomingStreamTrack timeService h)).

(** [getStats], [getActiveLayers], [getId], [getTrackInfo], [getSSRCs],
    [getMedia]: [return this.track.<query>()]. *)
Definition query (q : Query) : M JsValue :=
  m <- get_this ;;
  t <- deref (track m) ;;
  call (TrackQuery t q) ;;
  o <- read_track t ;;
  ret (st_answer o q).

Definition getStats : M JsValue := query GetStats.
Definition getActiveLayers : M JsValue := query GetActiveLayers.
Definition getId : M JsValue := query GetId.
Definition getTrackInfo : M JsValue := query GetTrackInfo.
Definition getSSRCs : M JsValue := query GetSSRCs.
Definition getMedia : M JsValue := query GetMedia.

Definition attached : M unit :=
  m <- get_this ;;
  t <- deref (track m) ;;
  call (TrackAttached t) ;;
  set_this (fun m => set_counter (counter m + 1) m) ;;
  m <- get_this ;;
  if counter m =? 1 then call (Emit "attached") else ret tt.

Definition refresh : M unit :=
  m <- get_this ;;
  for_each (JsMap.values (encodings m)) (fun encoding =>
    m <- get_this ;;
    r <- deref (receiver m) ;;
    call (SendPLI r (mux_ssrc (em_source encoding)))).

Definition detached : M unit :=
  m <- get_this ;;
  t <- deref (track m) ;;
  call (TrackDetached t) ;;
  set_this (fun m => set_counter (counter m - 1) m) ;;
  m <- get_this ;;
  if counter m =? 0 then call (Emit "detached") else ret tt.

Definition stop : M unit :=
  m <- get_this ;;
  match track m with
  | None => ret tt
  | Some t =>
      o <- read_track t ;;
      for_each (JsMap.values (st_encodings o)) (fun trackEncoding =>
        m <- get_this ;;
        e <- deref (JsMap.get (enc_id trackEncoding) (encodings m)) ;;
        call (RemoveListener (enc_source trackEncoding) (em_source e))) ;;
      m <- get_this ;;
      for_each (JsMap.values (encodings m)) (fun encoding =>
        call (MultiplexerStop (em_source encoding)) ;;
        call (DepacketizerStop (em_depacketizer encoding))) ;;
      call (Emit "stopped") ;;
      set_this (fun m => set_encodings (JsMap.clear (encodings m)) m) ;;
      set_this (set_track None) ;;
      set_this (set_receiver None)
  end.

(** ** Sequences of calls *)

(** What the holder of a mirror and the owner of the original track can do
    between two calls: a method of the mirror, or a change of the contents
    of an original track by its owner. *)
Inductive Call : Type :=
| CallAttached
| CallDetached
| CallRefresh
| CallStop
| CallQuery (q : Query)
| SourceChanges (t : Handle) (f : SourceTrack -> SourceTrack).

Definition source_changes (t : Handle) (f : SourceTrack -> SourceTrack)
  : M unit :=
  fun s =>
    (Return tt,
     {| this := this s;
        heap := {| tracks := fun t' => if Nat.eqb t' t
                                       then f (tracks (heap s) t')
                                       else tracks (heap s) t';
                   next := next (heap s) |} |},
     []).

(** A method without [return] yields [undefined]. *)
Definition void (c : M unit) : M JsValue := c ;; ret VUndefined.

Definition perform (c : Call) : M JsValue :=
  match c with
  | CallAttached => void attached
  | CallDetached => void detached
  | CallRefresh => void refresh
  | CallStop => void stop
  | CallQuery q => query q
  | SourceChanges t f => void (source_changes t f)
  end.

(** The calls are made one after the other; a caller may catch an exception
    and go on, so the run continues after a call that throws. *)
Fixpoint run (cs : list Call) (s : State)
  : list (Outcome JsValue) * State * list Entry :=
  match cs with
  | [] => ([], s, [])
  | c :: r =>
      match perform c s with
      | (o, s1, l1) =>
          match run r s1 with
          | (os, s2, l2) => (o :: os, s2, l1 ++ l2)
          end
      end
  end.

Definition outcome_of {A B C : Type} (x : A * B * C) : A := fst (fst x).
Definition state_of {A B C : Type} (x : A * B * C) : B := snd (fst x).
Definition entries_of {A B C : Type} (x : A * B * C) : C := snd x.

(** ** Reading a list of entries *)

Definition actions (l : list Entry) : list Action := map act l.

(** The events given to the emitter, in order. *)
Fixpoint events (l : list Action) : list string :=
  match l with
  | [] => []
  | Emit e :: r => e :: events r
  | _ :: r => events r
  end.

Definition stopped (s : State) : bool :=
  match track (this s) with
  | None => true
  | Some _ => false
  end.

Definition with_counter (c : Z) (s : State) : State :=
  {| this := set_counter c (this s); heap := heap s |}.

Definition entry (a : Action) (c : Z) : Entry :=
  {| act := a; at_counter := c |}.

Definition stamp (c : Z) (l : list Action) : list Entry :=
  map (fun a => entry a c) l.

(** The native objects on which [Stop] is called, in order. *)
Fixpoint released (l : list Action) : list Handle :=
  match l with
  | [] => []
  | MultiplexerStop m :: r => mux_handle m :: released r
  | DepacketizerStop d :: r => dep_handle d :: released r
  | _ :: r => released r
  end.

(** The native objects a mapping holds. *)
Definition owned (m : JsMap.t EncodingMirror) : list Handle :=
  flat_map (fun x => [mux_handle (em_source x);
                      dep_handle (em_depacketizer x)])
           (JsMap.values m).

(** ** What [stop] does, loop by loop *)

Definition covers (m : JsMap.t EncodingMirror) (e : Encoding) : bool :=
  match JsMap.get (enc_id e) m with
  | Some _ => true
  | None => false
  end.

(** The listener removals of the first loop of [stop], up to the first
    encoding of the original track that the mapping does not hold. *)
Fixpoint removals (m : JsMap.t EncodingMirror) (encs : list Encoding)
  : list Action :=
  match encs with
  | [] => []
  | e :: r =>
      match JsMap.get (enc_id e) m with
      | Some x => RemoveListener (enc_source e) (em_source x) :: removals m r
      | None => []
      end
  end.

(** The calls of the second loop of [stop]. *)
Definition stops (m : JsMap.t EncodingMirror) : list Action :=
  flat_map (fun x => [MultiplexerStop (em_source x);
                      DepacketizerStop (em_depacketizer x)])
           (JsMap.values m).

(** The state a completed [stop] leaves. *)
Definition halted (s : State) : State :=
  {| this := {| track := None; receiver := None;
                counter := counter (this s); encodings := [] |};
     heap := heap s |}.

(** ** Reference counting, in the words of the specification *)

Definition is_attached (c : Call) : bool :=
  match c with CallAttached => true | _ => false end.

Definition is_detached (c : Call) : bool :=
  match c with CallDetached => true | _ => false end.

Definition is_stop (c : Call) : bool :=
  match c with CallStop => true | _ => false end.

Definition attach_or_detach (c : Call) : bool :=
  is_attached c || is_detached c.

Definition count_attached (cs : list Call) : nat :=
  List.length (filter is_attached cs).

Definition count_detached (cs : list Call) : nat :=
  List.length (filter is_detached cs).

(** No prefix holds more [detached] than [attached] calls. *)
Definition balanced (cs : list Call) : Prop :=
  forall n : nat,
    (count_detached (firstn n cs) <= count_attached (firstn n cs))%nat.

(** The attach count after the calls: attachments minus detachments. *)
Definition attach_count (cs : list Call) : Z :=
  Z.of_nat (count_attached cs) - Z.of_nat (count_detached cs).

(** The specification's events: "attached" once per transition of the
    count from 0 to 1, "detached" once per transition from 1 to 0, nothing
    on any other transition. *)
Fixpoint transition_events (count : nat) (cs : list Call) : list string :=
  match cs with
  | [] => []
  | CallAttached :: r =>
      (if Nat.eqb count 0 then ["attached"] else [])
        ++ transition_events (S count) r
  | CallDetached :: r =>
      (if Nat.eqb count 1 then ["detached"] else [])
        ++ transition_events (Nat.pred count) r
  | _ :: r => transition_events count r
  end.

(** ** The states of a mirror built on track [t] *)

(** Either live, with the reference, the receiver and the mapping of the
    construction, or stopped, with both references null and the mapping
    empty. *)
Definition mirror_of (t r : Handle) (m0 : JsMap.t EncodingMirror)
  (s : State) : Prop :=
  (track (this s) = Some t /\ receiver (this s) = Some r
   /\ encodings (this s) = m0)
  \/ (track (this s) = None /\ receiver (this s) = None
      /\ encodings (this s) = []).

(** ** One round of the constructor's loop *)

(** The object literal the round stores when the allocator stands at [n]. *)
Definition mirror_entry (timeService : Handle) (encoding : Encoding)
  (n : Handle) : EncodingMirror :=
  let source :=
    {| mux_handle := n;
       mux_ssrc := ps_ssrc (enc_source encoding);
       mux_time := timeService |} in
  {| em_id := enc_id encoding;
     em_source := source;
     em_depacketizer := {| dep_handle := S n; dep_source := source |} |}.

(** The state the round leaves. *)
Definition mirrored (timeService : Handle) (encoding : Encoding) (s : State)
  : State :=
  {| this :=
       set_encodings
         (JsMap.set (enc_id encoding)
            (mirror_entry timeService encoding (next (heap s)))
            (encodings (this s)))
         (this s);
     heap := {| tracks := tracks (heap s); next := S (S (next (heap s))) |} |}.

(** ** A change of the original track, and sample data *)

(** The owner of the track adds an encoding under its id. *)
Definition add_encoding (e : Encoding) (t : SourceTrack) : SourceTrack :=
  {| st_receiver := st_receiver t;
     st_encodings := JsMap.set (enc_id e) e (st_encodings t);
     st_answer := st_answer t |}.

Definition sample_encoding (id : string) (h : Handle) (ssrc : Z) : Encoding :=
  {| enc_id := id; enc_source := {| ps_handle := h; ps_ssrc := ssrc |} |}.

(** A track with the single encoding "0" of ssrc 1000. *)
Definition sample_track : SourceTrack :=
  {| st_receiver := 7%nat;
     st_encodings := [("0", sample_encoding "0" 20%nat 1000)];
     st_answer := fun q =>
       match q with
       | GetId => VString "track"
       | GetMedia => VString "video"
       | GetSSRCs => VNumber 1000
       | _ => VObject 30%nat
       end |}.

Definition sample_heap : Heap :=
  {| tracks := fun _ => sample_track; next := 100%nat |}.

(** The mirror of [sample_track], time service 1. *)
Definition sample_mirror : State := create 0%nat 1%nat sample_heap.

(** ** More readings of a list of calls *)

(** Attach notifications given to the original track, minus detach
    notifications. *)
Fixpoint forwarded (l : list Action) : Z :=
  match l with
  | [] => 0
  | TrackAttached _ :: r => 1 + forwarded r
  | TrackDetached _ :: r => forwarded r - 1
  | _ :: r => forwarded r
  end.

(** The listener registrations, in order. *)
Fixpoint added (l : list Action) : list (PacketSource * Multiplexer) :=
  match l with
  | [] => []
  | AddListener src m :: r => (src, m) :: added r
  | _ :: r => added r
  end.

(** The listener removals, in order. *)
Fixpoint removed (l : list Action) : list (PacketSource * Multiplexer) :=
  match l with
  | [] => []
  | RemoveListener src m :: r => (src, m) :: removed r
  | _ :: r => removed r
  end.

(** The native objects built with [new], in order. *)
Fixpoint created (l : list Action) : list Handle :=
  match l with
  | [] => []
  | NewMultiplexer m :: r => mux_handle m :: created r
  | NewDepacketizer d :: r => dep_handle d :: created r
  | _ :: r => created r
  end.

(** A call that builds a native object or registers a listener. *)
Definition sets_up (a : Action) : bool :=
  match a with
  | NewMultiplexer _ | AddListener _ _ | NewDepacketizer _ => true
  | _ => false
  end.

(** "attached" and "detached" come in turns; [attached_next] tells which
    of the two may come first.  Other events are passed over. *)
Fixpoint alternates (attached_next : bool) (l : list string) : bool :=
  match l with
  | [] => true
  | e :: r =>
      if String.eqb e "attached" then attached_next && alternates false r
      else if String.eqb e "detached"
           then negb attached_next && alternates true r
           else alternates attached_next r
  end.

(** ** The constructor and one call, in closed form *)

(** The calls of the constructor's loop when the allocator stands at [n]. *)
Fixpoint construct_trace (timeService : Handle) (n : Handle)
  (encs : list Encoding) : list Action :=
  match encs with
  | [] => []
  | e :: r =>
      let x := mirror_entry timeService e n in
      NewMultiplexer (em_source x)
      :: AddListener (enc_source e) (em_source x)
      :: NewDepacketizer (em_depacketizer x)
      :: construct_trace timeService (S (S n)) r
  end.

(** The mapping the loop builds when no two encodings share an id. *)
Fixpoint built (timeService : Handle) (n : Handle) (encs : list Encoding)
  : JsMap.t EncodingMirror :=
  match encs with
  | [] => []
  | e :: r =>
      (enc_id e, mirror_entry timeService e n)
      :: built timeService (S (S n)) r
  end.

(** One call on a mirror built on track [t] with receiver [r]. *)
Definition step (t r : Handle) (c : Call) (s : State)
  : Outcome JsValue * State * list Entry :=
  let n := counter (this s) in
  match c with
  | SourceChanges t' f =>
      (Return VUndefined, state_of (source_changes t' f s), [])
  | CallAttached =>
      if stopped s then (Throw TypeError, s, [])
      else (Return VUndefined, with_counter (n + 1) s,
            entry (TrackAttached t) n
            :: (if n + 1 =? 1 then [entry (Emit "attached") (n + 1)]
                else []))
  | CallDetached =>
      if stopped s then (Throw TypeError, s, [])
      else (Return VUndefined, with_counter (n - 1) s,
            entry (TrackDetached t) n
            :: (if n - 1 =? 0 then [entry (Emit "detached") (n - 1)]
                else []))
  | CallRefresh =>
      (Return VUndefined, s,
       stamp n (map (fun x => SendPLI r (mux_ssrc (em_source x)))
                    (JsMap.values (encodings (this s)))))
  | CallStop =>
      let m := encodings (this s) in
      let encs := JsMap.values (st_encodings (tracks (heap s) t)) in
      if stopped s then (Return VUndefined, s, [])
      else if forallb (covers m) encs
           then (Return VUndefined, halted s,
                 stamp n (removals m encs ++ stops m ++ [Emit "stopped"]))
           else (Throw TypeError, s, stamp n (removals m encs))
  | CallQuery q =>
      if stopped s then (Throw TypeError, s, [])
      else (Return (st_answer (tracks (heap s) t) q), s,
            [entry (TrackQuery t q) n])
  end.


(** The owner of the track replaces its encodings by the single [e]. *)
Definition replace_encoding (e : Encoding) (t : SourceTrack) : SourceTrack :=
  {| st_receiver := st_receiver t;
     st_encodings := [(enc_id e, e)];
     st_answer := st_answer t |}.

(** The owner of the track takes all its encodings away. *)
Definition drop_encodings (t : SourceTrack) : SourceTrack :=
  {| st_receiver := st_receiver t;
     st_encodings := [];
     st_answer := st_answer t |}.

(** ** The mirror with the listeners of its emitter *)

(** The definitions above record [this.emitter.emit] as one call out of
    the class.  Here the emitter holds the listeners given to [on] and
    [once] and [emit] runs them, inside the method that emits; a listener
    may call methods of the mirror. *)
Module Listening.

(** A function given to [on], [once] or [off]: its identity and the
    methods of the mirror it calls, in order, when it is run. *)
Record Listener : Type := {
  listener_id : Handle;
  listener_calls : list Call
}.

Record Registration : Type := {
  reg_id : nat;
  reg_event : string;
  reg_once : bool;
  reg_listener : Listener
}.

(** Node's events.EventEmitter, which is outside the repository, after its
    documentation: the listeners in the order of their registration; [emit]
    calls, one after the other and before it returns, the listeners
    registered for the event at the moment of the call; a listener given to
    [once] is taken off the emitter just before its only run;
    [removeListener] takes off the latest registration of the listener for
    the event. *)
Record Emitter : Type := {
  registered : list Registration;
  fired : list nat;
  next_id : nat
}.

(** The instance: the fields of the mirror and [this.emitter]. *)
Record Object : Type := {
  mirror : State;
  emitter : Emitter
}.

(** [this.emitter = new EventEmitter()], the last statement of the
    constructor. *)
Definition with_emitter (s : State) : Object :=
  {| mirror := s;
     emitter := {| registered := []; fired := []; next_id := 0 |} |}.

(** A method returns, throws, or finds no room left on the call stack. *)
Inductive Result (A : Type) : Type :=
| Done (a : A)
| Raised (e : JsError)
| Overflow.
Arguments Done {A} a.
Arguments Raised {A} e.
Arguments Overflow {A}.

Definition L (A : Type) : Type := Object -> Result A * Object * list Entry.

Definition lret {A : Type} (a : A) : L A := fun x => (Done a, x, []).

Definition lbind {A B : Type} (c : L A) (k : A -> L B) : L B :=
  fun x =>
    match c x with
    | (Done a, x1, l1) =>
        match k a x1 with
        | (o, x2, l2) => (o, x2, l1 ++ l2)
        end
    | (Raised e, x1, l1) => (Raised e, x1, l1)
    | (Overflow, x1, l1) => (Overflow, x1, l1)
    end.

(** A piece of the class that does not emit, run on the fields. *)
Definition lift {A : Type} (c : M A) : L A :=
  fun x =>
    match c (mirror x) with
    | (Return a, s, l) => (Done a, {| mirror := s; emitter := emitter x |}, l)
    | (Throw e, s, l) => (Raised e, {| mirror := s; emitter := emitter x |}, l)
    end.

Definition get_emitter : L Emitter := fun x => (Done (emitter x), x, []).

Definition set_emitter (f : Emitter -> Emitter) : L unit :=
  fun x => (Done tt, {| mirror := mirror x; emitter := f (emitter x) |}, []).

Declare Scope listening_scope.
Delimit Scope listening_scope with listening.
Notation "x <- c ;; k" := (lbind c (fun x => k))
  (at level 61, c at next level, right associativity) : listening_scope.
Notation "c ;; k" := (lbind c (fun _ => k))
  (at level 61, right associativity) : listening_scope.
Local Open Scope listening_scope.

Fixpoint each {A : Type} (l : list A) (body : A -> L unit) : L unit :=
  match l with
  | [] => lret tt
  | a :: r => body a ;; each r body
  end.

Definition register (event : string) (is_once : bool) (l : Listener)
  (e : Emitter) : Emitter :=
  {| registered :=
       registered e
       ++ [{| reg_id := next_id e; reg_event := event;
              reg_once := is_once; reg_listener := l |}];
     fired := fired e;
     next_id := S (next_id e) |}.

Definition same_listener (event : string) (l : Listener) (g : Registration)
  : bool :=
  String.eqb (reg_event g) event
  && Nat.eqb (listener_id (reg_listener g)) (listener_id l).

Fixpoint drop_first (p : Registration -> bool) (gs : list Registration)
  : list Registration :=
  match gs with
  | [] => []
  | g :: r => if p g then r else g :: drop_first p r
  end.

(** [removeListener]: the latest matching registration goes. *)
Definition unregister (event : string) (l : Listener) (e : Emitter)
  : Emitter :=
  {| registered := rev (drop_first (same_listener event l)
                          (rev (registered e)));
     fired := fired e;
     next_id := next_id e |}.

(** What a [once] registration does before its run. *)
Definition fire (g : Registration) (e : Emitter) : Emitter :=
  {| registered :=
       filter (fun g' => negb (Nat.eqb (reg_id g') (reg_id g)))
              (registered e);
     fired := reg_id g :: fired e;
     next_id := next_id e |}.

(** The run of one registration by [emit]; [invoke] runs a listener. *)
Definition run_registration (invoke : Listener -> L unit) (g : Registration)
  : L unit :=
  if reg_once g then
    e <- get_emitter ;;
    if existsb (Nat.eqb (reg_id g)) (fired e) then lret tt
    else set_emitter (fire g) ;; invoke (reg_listener g)
  else invoke (reg_listener g).

(** [this.emitter.emit(event, this)]. *)
Definition emit (invoke : Listener -> L unit) (event : string) : L unit :=
  lift (call (Emit event)) ;;
  e <- get_emitter ;;
  each (filter (fun g => String.eqb (reg_event g) event) (registered e))
       (run_registration invoke).

(** [on], [once] and [off] hand their arguments to the emitter and return
    [this]: the caller has the mirror in the state the call leaves. *)
Definition on (event : string) (listener : Listener) : L unit :=
  set_emitter (register event false listener).

Definition once (event : string) (listener : Listener) : L unit :=
  set_emitter (register event true listener).

Definition off (event : string) (listener : Listener) : L unit :=
  set_emitter (unregister event listener).

Definition attached (emit : string -> L unit) : L unit :=
  m <- lift get_this ;;
  t <- lift (deref (track m)) ;;
  lift (call (TrackAttached t)) ;;
  lift (set_this (fun m => set_counter (counter m + 1) m)) ;;
  m <- lift get_this ;;
  if counter m =? 1 then emit "attached" else lret tt.

Definition detached (emit : string -> L unit) : L unit :=
  m <- lift get_this ;;
  t <- lift (deref (track m)) ;;
  lift (call (TrackDetached t)) ;;
  lift (set_this (fun m => set_counter (counter m - 1) m)) ;;
  m <- lift get_this ;;
  if counter m =? 0 then emit "detached" else lret tt.

Definition stop (emit : string -> L unit) : L unit :=
  m <- lift get_this ;;
  match track m with
  | None => lret tt
  | Some t =>
      o <- lift (read_track t) ;;
      lift (for_each (JsMap.values (st_encodings o)) (fun trackEncoding =>
        bind get_this (fun m =>
        bind (deref (JsMap.get (enc_id trackEncoding) (encodings m)))
          (fun e =>
        call (RemoveListener (enc_source trackEncoding) (em_source e)))))) ;;
      m <- lift get_this ;;
      lift (for_each (JsMap.values (encodings m)) (fun encoding =>
        bind (call (MultiplexerStop (em_source encoding))) (fun _ =>
        call (DepacketizerStop (em_depacketizer encoding))))) ;;
      emit "stopped" ;;
      lift (set_this (fun m => set_encodings (JsMap.clear (encodings m)) m)) ;;
      lift (set_this (set_track None)) ;;
      lift (set_this (set_receiver None))
  end.

(** An outcome of the class's own code, as a result. *)
Definition of_outcome {A : Type} (o : Outcome A) : Result A :=
  match o with
  | Return a => Done a
  | Throw e => Raised e
  end.

Definition lvoid (c : L unit) : L JsValue := c ;; lret VUndefined.

(** The body of a listener: its calls in order, up to the first that does
    not return. *)
Fixpoint sequence (f : Call -> L JsValue) (cs : list Call) : L unit :=
  match cs with
  | [] => lret tt
  | c :: r => f c ;; sequence f r
  end.

(** One call of a method, with room for [depth] nested calls on the
    stack: the listeners [emit] runs make their calls one level down. *)
Fixpoint perform (depth : nat) (c : Call) : L JsValue :=
  match depth with
  | O => fun x => (Overflow, x, [])
  | S d =>
      let emit := emit (fun l => sequence (perform d) (listener_calls l)) in
      match c with
      | CallAttached => lvoid (attached emit)
      | CallDetached => lvoid (detached emit)
      | CallStop => lvoid (stop emit)
      | CallRefresh => lift (void refresh)
      | CallQuery q => lift (query q)
      | SourceChanges t f => lift (void (source_changes t f))
      end
  end.

(** What the holder of the mirror asks of it. *)
Inductive Request : Type :=
| Invoke (c : Call)
| On (event : string) (listener : Listener)
| Once (event : string) (listener : Listener)
| Off (event : string) (listener : Listener).

Definition request (depth : nat) (r : Request) : L JsValue :=
  match r with
  | Invoke c => perform depth c
  | On event l => lvoid (on event l)
  | Once event l => lvoid (once event l)
  | Off event l => lvoid (off event l)
  end.

(** The requests one after the other, going on after an exception. *)
Fixpoint serve (depth : nat) (rs : list Request) (x : Object)
  : list (Result JsValue) * Object * list Entry :=
  match rs with
  | [] => ([], x, [])
  | r :: rest =>
      match request depth r x with
      | (o, x1, l1) =>
          match serve depth rest x1 with
          | (os, x2, l2) => (o :: os, x2, l1 ++ l2)
          end
      end
  end.

End Listening.

(** A listener of "stopped" that calls [stop()]. *)
Definition stop_again : Listening.Listener :=
  {| Listening.listener_id := 50%nat;
     Listening.listener_calls := [CallStop] |}.

(** Projections of a result given as a triple. *)
Ltac project := cbn [outcome_of state_of entries_of fst snd].

(** ** The methods, one equation per case *)

Lemma attached_live (s : State) (t : Handle) :
  track (this s) = Some t ->
  attached s =
    (Return tt, with_counter (counter (this s) + 1) s,
     entry (TrackAttached t) (counter (this s))
     :: (if counter (this s) + 1 =? 1
         then [entry (Emit "attached") (counter (this s) + 1)]
         else [])).
Proof.
  intros Ht. unfold attached, bind, get_this, set_this, call, with_counter, entry.
  rewrite Ht. cbn.
  destruct (counter (this s) + 1 =? 1); reflexivity.
Qed.

Lemma attached_stopped (s : State) :
  track (this s) = None -> attached s = (Throw TypeError, s, []).
Proof.
  intros Ht. unfold attached, bind, get_this. rewrite Ht. reflexivity.
Qed.

Lemma detached_live (s : State) (t : Handle) :
  track (this s) = Some t ->
  detached s =
    (Return tt, with_counter (counter (this s) - 1) s,
     entry (TrackDetached t) (counter (this s))
     :: (if counter (this s) - 1 =? 0
         then [entry (Emit "detached") (counter (this s) - 1)]
         else [])).
Proof.
  intros Ht. unfold detached, bind, get_this, set_this, call, with_counter, entry.
  rewrite Ht. cbn.
  destruct (counter (this s) - 1 =? 0); reflexivity.
Qed.

Lemma detached_stopped (s : State) :
  track (this s) = None -> detached s = (Throw TypeError, s, []).
Proof.
  intros Ht. unfold detached, bind, get_this. rewrite Ht. reflexivity.
Qed.

Lemma stop_stopped (s : State) :
  track (this s) = None -> stop s = (Return tt, s, []).
Proof.
  intros Ht. unfold stop, bind, get_this. rewrite Ht. reflexivity.
Qed.

Lemma query_live (q : Query) (s : State) (t : Handle) :
  track (this s) = Some t ->
  query q s =
    (Return (st_answer (tracks (heap s) t) q), s,
     [entry (TrackQuery t q) (counter (this s))]).
Proof.
  intros Ht. unfold query, bind, get_this, call, read_track, entry.
  rewrite Ht. reflexivity.
Qed.

Lemma query_stopped (q : Query) (s : State) :
  track (this s) = None -> query q s = (Throw TypeError, s, []).
Proof.
  intros Ht. unfold query, bind, get_this. rewrite Ht. reflexivity.
Qed.

(** ** The loops of [stop] and [refresh] *)

Lemma stamp_app (c : Z) (l1 l2 : list Action) :
  stamp c (l1 ++ l2) = stamp c l1 ++ stamp c l2.
Proof. apply map_app. Qed.

Lemma actions_stamp (c : Z) (l : list Action) : actions (stamp c l) = l.
Proof.
  unfold actions, stamp. rewrite map_map. cbn. apply map_id.
Qed.

Lemma removal_loop (encs : list Encoding) (s : State) :
  for_each encs (fun trackEncoding =>
    m <- get_this ;;
    e <- deref (JsMap.get (enc_id trackEncoding) (encodings m)) ;;
    call (RemoveListener (enc_source trackEncoding) (em_source e))) s
  = (if forallb (covers (encodings (this s))) encs
     then Return tt else Throw TypeError,
     s,
     stamp (counter (this s)) (removals (encodings (this s)) encs)).
Proof.
  induction encs as [|e r IH]; [reflexivity|].
  cbn [for_each forallb removals]. unfold covers at 1.
  unfold bind at 1. unfold bind at 1. unfold get_this at 1.
  destruct (JsMap.get (enc_id e) (encodings (this s))) as [x|] eqn:Hget.
  - cbn. rewrite IH. reflexivity.
  - reflexivity.
Qed.

Lemma release_loop (l : list EncodingMirror) (s : State) :
  for_each l (fun encoding =>
    call (MultiplexerStop (em_source encoding)) ;;
    call (DepacketizerStop (em_depacketizer encoding))) s
  = (Return tt, s,
     stamp (counter (this s))
       (flat_map (fun x => [MultiplexerStop (em_source x);
                            DepacketizerStop (em_depacketizer x)]) l)).
Proof.
  induction l as [|x r IH]; [reflexivity|].
  cbn [for_each flat_map]. unfold bind at 1. unfold bind at 1.
  cbn. rewrite IH. reflexivity.
Qed.

Lemma refresh_loop (l : list EncodingMirror) (s : State) (r : Handle) :
  receiver (this s) = Some r ->
  for_each l (fun encoding =>
    m <- get_this ;;
    r <- deref (receiver m) ;;
    call (SendPLI r (mux_ssrc (em_source encoding)))) s
  = (Return tt, s,
     map (fun x => entry (SendPLI r (mux_ssrc (em_source x)))
                         (counter (this s))) l).
Proof.
  intros Hr. induction l as [|x l IH]; [reflexivity|].
  cbn [for_each map]. unfold bind at 1. unfold bind at 1.
  unfold get_this at 1. rewrite Hr. cbn. rewrite IH. reflexivity.
Qed.

Lemma stop_live (s : State) (t : Handle) :
  track (this s) = Some t ->
  stop s =
    let m := encodings (this s) in
    let encs := JsMap.values (st_encodings (tracks (heap s) t)) in
    if forallb (covers m) encs
    then (Return tt, halted s,
          stamp (counter (this s))
            (removals m encs ++ stops m ++ [Emit "stopped"]))
    else (Throw TypeError, s, stamp (counter (this s)) (removals m encs)).
Proof.
  intros Ht. unfold stop. unfold bind at 1. unfold get_this at 1.
  rewrite Ht. unfold bind at 1. unfold read_track at 1.
  unfold bind at 1. rewrite removal_loop.
  cbv zeta.
  destruct (forallb _ _); [|reflexivity].
  unfold bind at 1. unfold get_this at 1.
  unfold bind at 1. rewrite release_loop.
  cbn. rewrite !stamp_app. reflexivity.
Qed.

Lemma refresh_live (s : State) (r : Handle) :
  receiver (this s) = Some r ->
  refresh s =
    (Return tt, s,
     map (fun x => entry (SendPLI r (mux_ssrc (em_source x)))
                         (counter (this s)))
         (JsMap.values (encodings (this s)))).
Proof.
  intros Hr. unfold refresh. unfold bind at 1. unfold get_this at 1.
  rewrite (refresh_loop _ _ r Hr). reflexivity.
Qed.

Lemma refresh_empty (s : State) :
  encodings (this s) = [] -> refresh s = (Return tt, s, []).
Proof.
  intros He. unfold refresh. unfold bind at 1. unfold get_this at 1.
  rewrite He. reflexivity.
Qed.

(** ** Maps *)

Lemma get_set_same {V : Type} (k : string) (v : V) (m : JsMap.t V) :
  JsMap.get k (JsMap.set k v m) = Some v.
Proof.
  induction m as [|[k' v'] r IH]; cbn.
  - rewrite String.eqb_refl. reflexivity.
  - destruct (String.eqb k k') eqn:E; cbn.
    + rewrite String.eqb_refl. reflexivity.
    + rewrite E. exact IH.
Qed.

Lemma get_set_other {V : Type} (k k' : string) (v : V) (m : JsMap.t V) :
  k <> k' -> JsMap.get k' (JsMap.set k v m) = JsMap.get k' m.
Proof.
  intros Hne. induction m as [|[k0 v0] r IH]; cbn.
  - destruct (String.eqb_spec k' k); [congruence|reflexivity].
  - destruct (String.eqb_spec k k0) as [->|Hk]; cbn.
    + destruct (String.eqb_spec k' k0); [congruence|reflexivity].
    + destruct (String.eqb_spec k' k0); [reflexivity|exact IH].
Qed.

Lemma keys_set {V : Type} (k k' : string) (v : V) (m : JsMap.t V) :
  In k' (JsMap.keys (JsMap.set k v m)) <-> k' = k \/ In k' (JsMap.keys m).
Proof.
  induction m as [|[k0 v0] r IH]; cbn.
  - intuition congruence.
  - destruct (String.eqb_spec k k0) as [->|Hk]; cbn.
    + intuition congruence.
    + unfold JsMap.keys in IH. rewrite IH. intuition congruence.
Qed.

Lemma get_in_keys {V : Type} (k : string) (m : JsMap.t V) :
  In k (JsMap.keys m) <-> JsMap.get k m <> None.
Proof.
  induction m as [|[k0 v0] r IH]; cbn.
  - intuition congruence.
  - destruct (String.eqb_spec k k0) as [->|Hk].
    + split; [congruence|auto].
    + unfold JsMap.keys in IH. rewrite <- IH. intuition congruence.
Qed.

Lemma owned_set_in (k : string) (x : EncodingMirror)
  (m : JsMap.t EncodingMirror) (h : Handle) :
  In h (owned (JsMap.set k x m)) ->
  h = mux_handle (em_source x) \/ h = dep_handle (em_depacketizer x)
  \/ In h (owned m).
Proof.
  induction m as [|[k0 x0] r IH]; cbn.
  - intuition congruence.
  - destruct (String.eqb_spec k k0) as [->|Hk]; cbn.
    + intuition congruence.
    + intros [H|[H|H]]; auto.
      destruct (IH H) as [H'|[H'|H']]; auto.
Qed.

Lemma owned_set_nodup (k : string) (x : EncodingMirror)
  (m : JsMap.t EncodingMirror) :
  NoDup (owned m) ->
  ~ In (mux_handle (em_source x)) (owned m) ->
  ~ In (dep_handle (em_depacketizer x)) (owned m) ->
  mux_handle (em_source x) <> dep_handle (em_depacketizer x) ->
  NoDup (owned (JsMap.set k x m)).
Proof.
  intros Hnd Hm Hd Hne. induction m as [|[k0 x0] r IH]; cbn.
  - repeat constructor; cbn; intuition congruence.
  - cbn in Hnd, Hm, Hd.
    inversion Hnd as [|? ? Hn1 Hnd1]; subst.
    inversion Hnd1 as [|? ? Hn2 Hnd2]; subst.
    destruct (String.eqb_spec k k0) as [->|Hk]; cbn.
    + constructor; [cbn; intuition congruence|].
      constructor; [intuition|exact Hnd2].
    + assert (IH' : NoDup (owned (JsMap.set k x r))) by (apply IH; intuition).
      constructor.
      * cbn. intros [H|H]; [apply Hn1; left; exact H|].
        apply owned_set_in in H. cbn in Hn1. intuition congruence.
      * constructor; [|exact IH'].
        intros H. apply owned_set_in in H. intuition congruence.
Qed.

(** ** The constructor *)

Lemma mirror_encoding_eq (ts : Handle) (e : Encoding) (s : State) :
  mirror_encoding ts e s =
    (Return tt, mirrored ts e s,
     let x := mirror_entry ts e (next (heap s)) in
     stamp (counter (this s))
       [NewMultiplexer (em_source x);
        AddListener (enc_source e) (em_source x);
        NewDepacketizer (em_depacketizer x)]).
Proof. reflexivity. Qed.

Lemma construct_cons (ts : Handle) (e : Encoding) (r : list Encoding)
  (s : State) :
  let rest := for_each r (mirror_encoding ts) (mirrored ts e s) in
  for_each (e :: r) (mirror_encoding ts) s =
    (outcome_of rest, state_of rest,
     entries_of (mirror_encoding ts e s) ++ entries_of rest).
Proof.
  cbv zeta. cbn [for_each]. unfold bind at 1. rewrite mirror_encoding_eq.
  destruct (for_each r (mirror_encoding ts) (mirrored ts e s)) as [[o s2] l2].
  reflexivity.
Qed.

Lemma construct_returns (ts : Handle) (encs : list Encoding) (s : State) :
  outcome_of (for_each encs (mirror_encoding ts) s) = Return tt.
Proof.
  revert s. induction encs as [|e r IH]; intros s; [reflexivity|].
  rewrite construct_cons. cbn. apply IH.
Qed.

Lemma construct_frame (ts : Handle) (encs : list Encoding) (s : State) :
  let s' := state_of (for_each encs (mirror_encoding ts) s) in
  track (this s') = track (this s)
  /\ receiver (this s') = receiver (this s)
  /\ counter (this s') = counter (this s)
  /\ tracks (heap s') = tracks (heap s).
Proof.
  revert s. induction encs as [|e r IH]; intros s; [cbn; auto|].
  cbv zeta. rewrite construct_cons. cbn [state_of fst snd].
  destruct (IH (mirrored ts e s)) as (H1 & H2 & H3 & H4).
  rewrite H1, H2, H3, H4. cbn. auto.
Qed.

Lemma construct_keys (ts : Handle) (encs : list Encoding) (s : State)
  (id : string) :
  In id (JsMap.keys
           (encodings (this (state_of (for_each encs (mirror_encoding ts) s)))))
  <-> In id (JsMap.keys (encodings (this s))) \/ In id (map enc_id encs).
Proof.
  revert s. induction encs as [|e r IH]; intros s.
  - cbn. intuition.
  - rewrite construct_cons. cbn [state_of fst snd]. rewrite IH.
    cbn [mirrored this set_encodings encodings]. rewrite keys_set.
    cbn. intuition congruence.
Qed.

Lemma construct_get_other (ts : Handle) (encs : list Encoding) (s : State)
  (id : string) :
  ~ In id (map enc_id encs) ->
  JsMap.get id
    (encodings (this (state_of (for_each encs (mirror_encoding ts) s))))
  = JsMap.get id (encodings (this s)).
Proof.
  revert s. induction encs as [|e r IH]; intros s Hn; [reflexivity|].
  rewrite construct_cons. cbn [state_of fst snd]. cbn in Hn.
  rewrite IH by intuition.
  cbn [mirrored this set_encodings encodings].
  apply get_set_other. intuition.
Qed.

Lemma construct_owned (ts : Handle) (encs : list Encoding) (s : State) :
  let s' := state_of (for_each encs (mirror_encoding ts) s) in
  (forall h, In h (owned (encodings (this s))) -> (h < next (heap s))%nat) ->
  NoDup (owned (encodings (this s))) ->
  (forall h, In h (owned (encodings (this s'))) -> (h < next (heap s'))%nat)
  /\ NoDup (owned (encodings (this s'))).
Proof.
  revert s. induction encs as [|e r IH]; intros s; [cbn; auto|].
  cbv zeta. intros Hlt Hnd. rewrite construct_cons. cbn [state_of fst snd].
  apply IH; cbn [mirrored this heap next set_encodings encodings].
  - intros h Hin. apply owned_set_in in Hin. cbn in Hin.
    destruct Hin as [->|[->|Hin]]; [lia|lia|].
    specialize (Hlt h Hin). lia.
  - apply owned_set_nodup; cbn; try exact Hnd.
    + intros Hin. specialize (Hlt _ Hin). lia.
    + intros Hin. specialize (Hlt _ Hin). lia.
    + lia.
Qed.

Lemma construct_stores (ts : Handle) (encs : list Encoding) (s : State)
  (e : Encoding) :
  NoDup (map enc_id encs) ->
  In e encs ->
  let r := for_each encs (mirror_encoding ts) s in
  exists (m : Multiplexer) (d : Depacketizer),
    mux_ssrc m = ps_ssrc (enc_source e)
    /\ mux_time m = ts
    /\ dep_source d = m
    /\ In (AddListener (enc_source e) m) (actions (entries_of r))
    /\ JsMap.get (enc_id e) (encodings (this (state_of r)))
       = Some {| em_id := enc_id e; em_source := m; em_depacketizer := d |}.
Proof.
  revert s. induction encs as [|e0 r IH]; intros s Hnd Hin; [destruct Hin|].
  cbv zeta. rewrite construct_cons. cbn [state_of entries_of fst snd].
  inversion Hnd as [|? ? Hn0 Hnd']; subst.
  destruct Hin as [->|Hin].
  - exists (em_source (mirror_entry ts e (next (heap s)))),
           (em_depacketizer (mirror_entry ts e (next (heap s)))).
    repeat split.
    + unfold actions. rewrite map_app. apply in_or_app. left.
      rewrite mirror_encoding_eq. cbn. auto.
    + rewrite construct_get_other by exact Hn0.
      cbn [mirrored this set_encodings encodings].
      rewrite get_set_same. reflexivity.
  - destruct (IH (mirrored ts e0 s) Hnd' Hin) as (m & d & H1 & H2 & H3 & H4 & H5).
    exists m, d. repeat split; auto.
    unfold actions. rewrite map_app. apply in_or_app. right. exact H4.
Qed.

Lemma create_fields (t ts : Handle) (h : Heap) :
  track (this (create t ts h)) = Some t
  /\ receiver (this (create t ts h)) = Some (st_receiver (tracks h t))
  /\ counter (this (create t ts h)) = 0
  /\ tracks (heap (create t ts h)) = tracks h.
Proof.
  unfold create, constructor.
  match goal with
  | |- context [for_each ?l ?b ?s] =>
      destruct (construct_frame ts l s) as (H1 & H2 & H3 & H4)
  end.
  unfold state_of in *. rewrite H1, H2, H3, H4. cbn. auto.
Qed.

Lemma create_owned (t ts : Handle) (h : Heap) :
  NoDup (owned (encodings (this (create t ts h)))).
Proof.
  unfold create, constructor.
  match goal with
  | |- context [for_each ?l ?b ?s] =>
      pose proof (construct_owned ts l s) as H
  end.
  cbv zeta in H. apply H.
  - cbn. tauto.
  - cbn. constructor.
Qed.

Lemma create_mirror_of (t ts : Handle) (h : Heap) :
  mirror_of t (st_receiver (tracks h t))
    (encodings (this (create t ts h))) (create t ts h).
Proof.
  destruct (create_fields t ts h) as (H1 & H2 & _).
  left. auto.
Qed.

(** ** Reading the entries of [stop] *)

Lemma events_app (l1 l2 : list Action) :
  events (l1 ++ l2) = events l1 ++ events l2.
Proof.
  induction l1 as [|a l1 IH]; [reflexivity|].
  destruct a; cbn; rewrite IH; reflexivity.
Qed.

Lemma released_app (l1 l2 : list Action) :
  released (l1 ++ l2) = released l1 ++ released l2.
Proof.
  induction l1 as [|a l1 IH]; [reflexivity|].
  destruct a; cbn; rewrite IH; reflexivity.
Qed.

Lemma actions_app (l1 l2 : list Entry) :
  actions (l1 ++ l2) = actions l1 ++ actions l2.
Proof. apply map_app. Qed.

Lemma removals_quiet (m : JsMap.t EncodingMirror) (encs : list Encoding) :
  events (removals m encs) = [] /\ released (removals m encs) = [].
Proof.
  induction encs as [|e r IH]; cbn; [auto|].
  destruct (JsMap.get (enc_id e) m); cbn; auto.
Qed.

Lemma stops_read (m : JsMap.t EncodingMirror) :
  events (stops m) = [] /\ released (stops m) = owned m.
Proof.
  unfold stops, owned, JsMap.values.
  induction m as [|[k x] r [IH1 IH2]]; cbn; [auto|].
  rewrite IH1, IH2. auto.
Qed.

Lemma completed_stop_read (m : JsMap.t EncodingMirror)
  (encs : list Encoding) :
  events (removals m encs ++ stops m ++ [Emit "stopped"]) = ["stopped"]
  /\ released (removals m encs ++ stops m ++ [Emit "stopped"]) = owned m.
Proof.
  rewrite !events_app, !released_app.
  destruct (removals_quiet m encs) as [-> ->].
  destruct (stops_read m) as [-> ->]. cbn.
  rewrite app_nil_r. auto.
Qed.

(** ** One call *)

Lemma void_eq (c : M unit) (s : State) :
  void c s =
    (match outcome_of (c s) with
     | Return _ => Return VUndefined
     | Throw e => Throw e
     end, state_of (c s), entries_of (c s)).
Proof.
  unfold void, bind, ret, outcome_of, state_of, entries_of.
  destruct (c s) as [[[a|e] s1] l1]; cbn; rewrite ?app_nil_r; reflexivity.
Qed.

Lemma stopped_false (s : State) :
  stopped s = false -> exists t, track (this s) = Some t.
Proof.
  unfold stopped. destruct (track (this s)) as [t|]; [eauto|discriminate].
Qed.

Lemma stopped_true (s : State) :
  stopped s = true -> track (this s) = None.
Proof.
  unfold stopped. destruct (track (this s)); [discriminate|reflexivity].
Qed.

(** On a stopped mirror no call changes the mirror or leaves the class. *)
Lemma perform_stopped (c : Call) (s : State) :
  track (this s) = None ->
  encodings (this s) = [] ->
  entries_of (perform c s) = [] /\ this (state_of (perform c s)) = this s.
Proof.
  intros Ht He.
  destruct c; cbn [perform]; rewrite ?void_eq;
    cbn [entries_of state_of fst snd].
  - rewrite attached_stopped by exact Ht. auto.
  - rewrite detached_stopped by exact Ht. auto.
  - rewrite refresh_empty by exact He. auto.
  - rewrite stop_stopped by exact Ht. auto.
  - rewrite query_stopped by exact Ht. auto.
  - auto.
Qed.

(** On a live mirror a call either leaves it live, without [Stop] on a
    native object and without "stopped", or is a [stop] that completes. *)
Lemma perform_live (t r : Handle) (m0 : JsMap.t EncodingMirror)
  (c : Call) (s : State) :
  mirror_of t r m0 s ->
  stopped s = false ->
  let p := perform c s in
  (mirror_of t r m0 (state_of p)
   /\ stopped (state_of p) = false
   /\ released (actions (entries_of p)) = []
   /\ ~ In "stopped" (events (actions (entries_of p))))
  \/ (c = CallStop
      /\ outcome_of p = Return VUndefined
      /\ state_of p = halted s
      /\ actions (entries_of p) =
           removals m0 (JsMap.values (st_encodings (tracks (heap s) t)))
             ++ stops m0 ++ [Emit "stopped"]).
Proof.
  intros Hm Hs. cbv zeta.
  destruct Hm as [(Ht & Hr & He)|(Ht & _)];
    [|unfold stopped in Hs; rewrite Ht in Hs; discriminate].
  assert (Hkeep : forall s', this s' = this s ->
            mirror_of t r m0 s' /\ stopped s' = false).
  { intros s' E. unfold mirror_of, stopped. rewrite E, Ht. auto. }
  destruct c; cbn [perform]; rewrite ?void_eq;
    cbn [entries_of state_of outcome_of fst snd].
  - left. rewrite (attached_live s t Ht). project.
    repeat split.
    + left. cbn. auto.
    + unfold stopped. cbn. rewrite Ht. reflexivity.
    + destruct (counter (this s) + 1 =? 1); reflexivity.
    + destruct (counter (this s) + 1 =? 1); cbn; intuition discriminate.
  - left. rewrite (detached_live s t Ht). project.
    repeat split.
    + left. cbn. auto.
    + unfold stopped. cbn. rewrite Ht. reflexivity.
    + destruct (counter (this s) - 1 =? 0); reflexivity.
    + destruct (counter (this s) - 1 =? 0); cbn; intuition discriminate.
  - left. rewrite (refresh_live s r Hr). project.
    destruct (Hkeep s eq_refl) as [H1 H2]. repeat split; auto.
    + induction (JsMap.values (encodings (this s))); [reflexivity|exact IHl].
    + induction (JsMap.values (encodings (this s))); [cbn; tauto|exact IHl].
  - rewrite (stop_live s t Ht). cbv zeta. rewrite He.
    destruct (forallb _ _); project.
    + right. rewrite actions_stamp. auto.
    + left. destruct (Hkeep s eq_refl) as [H1 H2].
      rewrite actions_stamp.
      destruct (removals_quiet m0
                  (JsMap.values (st_encodings (tracks (heap s) t))))
        as [E1 E2].
      rewrite E1, E2. repeat split; auto.
  - left. rewrite (query_live q s t Ht). project.
    destruct (Hkeep s eq_refl) as [H1 H2]. repeat split; auto.
  - left. project. cbn.
    destruct (Hkeep {| this := this s;
                       heap := {| tracks := fun t' => if Nat.eqb t' t0
                                                      then f (tracks (heap s) t')
                                                      else tracks (heap s) t';
                                  next := next (heap s) |} |} eq_refl)
      as [H1 H2].
    repeat split; auto.
Qed.

(** ** Sequences of calls *)

Lemma run_cons (c : Call) (r : list Call) (s : State) :
  let p := perform c s in
  let rest := run r (state_of p) in
  run (c :: r) s =
    (outcome_of p :: outcome_of rest, state_of rest,
     entries_of p ++ entries_of rest).
Proof.
  cbv zeta. cbn [run]. unfold outcome_of, state_of, entries_of.
  destruct (perform c s) as [[o s1] l1]. cbn [fst snd].
  destruct (run r s1) as [[os s2] l2]. reflexivity.
Qed.

Lemma run_stopped (cs : list Call) (s : State) :
  track (this s) = None ->
  encodings (this s) = [] ->
  entries_of (run cs s) = [] /\ this (state_of (run cs s)) = this s.
Proof.
  revert s. induction cs as [|c r IH]; intros s Ht He; [auto|].
  rewrite run_cons. project.
  destruct (perform_stopped c s Ht He) as [E1 E2].
  destruct (IH (state_of (perform c s))) as [E3 E4];
    try (rewrite E2; assumption).
  rewrite E1, E3, E4, E2. auto.
Qed.

Lemma perform_mirror_of (t r : Handle) (m0 : JsMap.t EncodingMirror)
  (c : Call) (s : State) :
  mirror_of t r m0 s -> mirror_of t r m0 (state_of (perform c s)).
Proof.
  intros Hm. destruct (stopped s) eqn:Hs.
  - destruct Hm as [(Ht & _)|(Ht & Hr & He)];
      [unfold stopped in Hs; rewrite Ht in Hs; discriminate|].
    destruct (perform_stopped c s Ht He) as [_ E].
    right. rewrite E. auto.
  - destruct (perform_live t r m0 c s Hm Hs) as [(H & _)|(_ & _ & E & _)];
      [exact H|].
    right. rewrite E. cbn. auto.
Qed.

Lemma run_mirror_of (t r : Handle) (m0 : JsMap.t EncodingMirror)
  (cs : list Call) (s : State) :
  mirror_of t r m0 s -> mirror_of t r m0 (state_of (run cs s)).
Proof.
  revert s. induction cs as [|c cs IH]; intros s Hm; [exact Hm|].
  rewrite run_cons. project. apply IH. apply perform_mirror_of. exact Hm.
Qed.

Lemma run_without_stop (t r : Handle) (m0 : JsMap.t EncodingMirror)
  (cs : list Call) (s : State) :
  mirror_of t r m0 s ->
  stopped s = false ->
  existsb is_stop cs = false ->
  stopped (state_of (run cs s)) = false
  /\ encodings (this (state_of (run cs s))) = m0.
Proof.
  revert s. induction cs as [|c cs IH]; intros s Hm Hs Hn.
  - cbn. split; [exact Hs|].
    destruct Hm as [(_ & _ & E)|(Ht & _)]; [exact E|].
    unfold stopped in Hs. rewrite Ht in Hs. discriminate.
  - rewrite run_cons. project. cbn [existsb] in Hn.
    apply orb_false_iff in Hn. destruct Hn as [Hc Hn].
    destruct (perform_live t r m0 c s Hm Hs) as [(Hm' & Hs' & _)|(E & _)].
    + apply IH; assumption.
    + subst c. discriminate.
Qed.

(** ** Reference counting *)

Lemma refcount_run (cs : list Call) (s : State) (t : Handle) (n : nat) :
  track (this s) = Some t ->
  counter (this s) = Z.of_nat n ->
  forallb attach_or_detach cs = true ->
  (forall k : nat,
     (count_detached (firstn k cs) <= n + count_attached (firstn k cs))%nat) ->
  let r := run cs s in
  Forall (fun o => o = Return VUndefined) (outcome_of r)
  /\ counter (this (state_of r)) = Z.of_nat n + attach_count cs
  /\ events (actions (entries_of r)) = transition_events n cs.
Proof.
  revert s n. induction cs as [|c cs IH]; intros s n Ht Hc Hall Hbal; cbv zeta.
  - cbn. unfold attach_count. cbn. repeat split; [constructor|lia].
  - rewrite run_cons. project. cbn [forallb] in Hall.
    apply andb_true_iff in Hall. destruct Hall as [Hcall Hall].
    destruct c; try discriminate; cbn [perform]; rewrite void_eq.
    + rewrite (attached_live s t Ht). project.
      destruct (IH (with_counter (counter (this s) + 1) s) (S n))
        as (H1 & H2 & H3); auto.
      * change (counter (this s) + 1 = Z.of_nat (S n)). rewrite Hc. lia.
      * intros k. specialize (Hbal (S k)).
        unfold count_detached, count_attached in *. cbn in Hbal.
        clear - Hbal. lia.
      * repeat split.
        -- constructor; [reflexivity|exact H1].
        -- rewrite H2. unfold attach_count, count_attached, count_detached.
           cbn [filter is_attached is_detached List.length]. lia.
        -- rewrite actions_app, events_app, H3. cbn [transition_events].
           f_equal. rewrite Hc.
           destruct n; [reflexivity|].
           destruct (Z.eqb_spec (Z.of_nat (S n) + 1) 1); [lia|reflexivity].
    + rewrite (detached_live s t Ht). project.
      assert (Hpos : (1 <= n)%nat).
      { specialize (Hbal 1%nat). unfold count_detached, count_attached in Hbal.
        cbn in Hbal. clear - Hbal. lia. }
      destruct (IH (with_counter (counter (this s) - 1) s) (Nat.pred n))
        as (H1 & H2 & H3); auto.
      * change (counter (this s) - 1 = Z.of_nat (Nat.pred n)). rewrite Hc. lia.
      * intros k. specialize (Hbal (S k)).
        unfold count_detached, count_attached in *. cbn in Hbal.
        clear - Hbal. lia.
      * repeat split.
        -- constructor; [reflexivity|exact H1].
        -- rewrite H2. unfold attach_count, count_attached, count_detached.
           cbn [filter is_attached is_detached List.length]. lia.
        -- rewrite actions_app, events_app, H3. cbn [transition_events].
           f_equal. rewrite Hc.
           destruct n as [|[|n]]; [lia|reflexivity|].
           destruct (Z.eqb_spec (Z.of_nat (S (S n)) - 1) 0); [lia|reflexivity].
Qed.

(** ** The first loop of [stop] against the mapping *)

Lemma covers_keys (m : JsMap.t EncodingMirror) (e : Encoding) :
  covers m e = true <-> In (enc_id e) (JsMap.keys m).
Proof.
  rewrite get_in_keys. unfold covers.
  destruct (JsMap.get (enc_id e) m); split; congruence.
Qed.

Lemma removals_covered (m : JsMap.t EncodingMirror) (encs : list Encoding) :
  forallb (covers m) encs = true ->
  Forall2 (fun e a => exists x,
             JsMap.get (enc_id e) m = Some x
             /\ a = RemoveListener (enc_source e) (em_source x))
          encs (removals m encs).
Proof.
  induction encs as [|e r IH]; intros H; cbn; [constructor|].
  cbn in H. apply andb_true_iff in H. destruct H as [He Hr].
  unfold covers in He.
  destruct (JsMap.get (enc_id e) m) as [x|] eqn:E; [|discriminate].
  constructor; [eauto|auto].
Qed.

Lemma removals_length (m : JsMap.t EncodingMirror) (encs : list Encoding) :
  forallb (covers m) encs = true ->
  List.length (removals m encs) = List.length encs.
Proof.
  intros H. apply removals_covered in H.
  symmetry. eapply Forall2_length. exact H.
Qed.

(** The first encoding the mapping does not hold, and what comes before. *)
Lemma first_uncovered (m : JsMap.t EncodingMirror) (encs : list Encoding) :
  forallb (covers m) encs = false ->
  exists pre e post,
    encs = pre ++ e :: post
    /\ forallb (covers m) pre = true
    /\ covers m e = false
    /\ removals m encs = removals m pre.
Proof.
  induction encs as [|e r IH]; intros H; [discriminate|].
  cbn in H. destruct (covers m e) eqn:E.
  - cbn in H. destruct (IH H) as (pre & e' & post & H1 & H2 & H3 & H4).
    exists (e :: pre), e', post. cbn [app forallb removals].
    rewrite E, H2, H4, <- H1. auto.
  - exists [], e, r. cbn [app forallb removals].
    pose proof E as E'. unfold covers in E'.
    destruct (JsMap.get (enc_id e) m); [discriminate|]. auto.
Qed.

Lemma create_keys (t ts : Handle) (h : Heap) (id : string) :
  In id (JsMap.keys (encodings (this (create t ts h))))
  <-> In id (map enc_id (JsMap.values (st_encodings (tracks h t)))).
Proof.
  unfold create, constructor.
  match goal with
  | |- context [for_each ?l ?b ?s] =>
      pose proof (construct_keys ts l s id) as H
  end.
  unfold state_of in H. rewrite H. cbn. tauto.
Qed.

(** ** The mirror with its listeners *)

(** With no listener on the emitter, [emit] is the one call out of the
    class that the definitions without listeners record. *)
Lemma emit_unheard (invoke : Listening.Listener -> Listening.L unit)
  (event : string) (x : Listening.Object) :
  Listening.registered (Listening.emitter x) = [] ->
  Listening.emit invoke event x = Listening.lift (call (Emit event)) x.
Proof.
  intros H. unfold Listening.emit, Listening.lbind, Listening.lift,
    Listening.get_emitter, call. cbn. rewrite H. reflexivity.
Qed.

Lemma lbind_lift {A B : Type} (c : M A) (k : A -> Listening.L B)
  (x : Listening.Object) :
  Listening.lbind (Listening.lift c) k x =
    match c (Listening.mirror x) with
    | (Return a, s, l) =>
        match k a {| Listening.mirror := s;
                     Listening.emitter := Listening.emitter x |} with
        | (o, x2, l2) => (o, x2, l ++ l2)
        end
    | (Throw e, s, l) =>
        (Listening.Raised e,
         {| Listening.mirror := s;
            Listening.emitter := Listening.emitter x |}, l)
    end.
Proof.
  unfold Listening.lbind, Listening.lift.
  destruct (c (Listening.mirror x)) as [[[a|e] s] l]; reflexivity.
Qed.

Lemma perform_unheard (d : nat) (c : Call) (x : Listening.Object) :
  Listening.registered (Listening.emitter x) = [] ->
  Listening.perform (S d) c x = Listening.lift (perform c) x.
Proof.
  intros H. destruct c; cbn [Listening.perform perform]; try reflexivity.
  - destruct (track (this (Listening.mirror x))) as [t|] eqn:Ht.
    + etransitivity;
        [|symmetry; unfold Listening.lift;
          rewrite void_eq, (attached_live _ _ Ht); project; reflexivity].
      unfold Listening.lvoid, Listening.attached, Listening.lbind,
        Listening.lift, Listening.lret, get_this, deref, call, set_this, ret.
      rewrite Ht. cbn.
      destruct (counter (this (Listening.mirror x)) + 1 =? 1); cbn;
        rewrite ?H; reflexivity.
    + etransitivity;
        [|symmetry; unfold Listening.lift;
          rewrite void_eq, (attached_stopped _ Ht); project; reflexivity].
      unfold Listening.lvoid, Listening.attached, Listening.lbind,
        Listening.lift, get_this, deref.
      rewrite Ht. reflexivity.
  - destruct (track (this (Listening.mirror x))) as [t|] eqn:Ht.
    + etransitivity;
        [|symmetry; unfold Listening.lift;
          rewrite void_eq, (detached_live _ _ Ht); project; reflexivity].
      unfold Listening.lvoid, Listening.detached, Listening.lbind,
        Listening.lift, Listening.lret, get_this, deref, call, set_this, ret.
      rewrite Ht. cbn.
      destruct (counter (this (Listening.mirror x)) - 1 =? 0); cbn;
        rewrite ?H; reflexivity.
    + etransitivity;
        [|symmetry; unfold Listening.lift;
          rewrite void_eq, (detached_stopped _ Ht); project; reflexivity].
      unfold Listening.lvoid, Listening.detached, Listening.lbind,
        Listening.lift, get_this, deref.
      rewrite Ht. reflexivity.
  - destruct (track (this (Listening.mirror x))) as [t|] eqn:Ht.
    + etransitivity;
        [|symmetry; unfold Listening.lift;
          rewrite void_eq, (stop_live _ _ Ht); cbv zeta; reflexivity].
      unfold Listening.lvoid, Listening.stop.
      unfold Listening.lbind at 1. rewrite lbind_lift.
      unfold get_this at 1. cbv beta iota. rewrite Ht.
      rewrite lbind_lift. unfold read_track at 1. cbv beta iota.
      rewrite lbind_lift. rewrite removal_loop. cbn [Listening.mirror].
      destruct (forallb _ _).
      * cbv beta iota. rewrite lbind_lift. unfold get_this at 1.
        cbv beta iota. cbn [Listening.mirror].
        rewrite lbind_lift, release_loop. cbv beta iota.
        unfold Listening.lbind at 1.
        rewrite emit_unheard by exact H.
        unfold Listening.lift at 1. unfold call at 1. cbv beta iota.
        cbn [Listening.mirror Listening.emitter].
        unfold Listening.lbind, Listening.lift, Listening.lret, set_this.
        cbn. project. unfold stops, halted.
        rewrite !stamp_app, !app_nil_r. reflexivity.
      * cbv beta iota. project. reflexivity.
    + etransitivity;
        [|symmetry; unfold Listening.lift;
          rewrite void_eq, (stop_stopped _ Ht); project; reflexivity].
      unfold Listening.lvoid, Listening.stop, Listening.lbind,
        Listening.lift, Listening.lret, get_this.
      cbn. rewrite Ht. reflexivity.
Qed.

Lemma serve_unheard (d : nat) (cs : list Call) (x : Listening.Object) :
  Listening.registered (Listening.emitter x) = [] ->
  Listening.serve (S d) (map Listening.Invoke cs) x =
    (map Listening.of_outcome (outcome_of (run cs (Listening.mirror x))),
     {| Listening.mirror := state_of (run cs (Listening.mirror x));
        Listening.emitter := Listening.emitter x |},
     entries_of (run cs (Listening.mirror x))).
Proof.
  revert x. induction cs as [|c cs IH]; intros x H.
  - destruct x. reflexivity.
  - rewrite run_cons. project.
    cbn [map Listening.serve Listening.request].
    rewrite (perform_unheard d c x H). unfold Listening.lift.
    destruct (perform c (Listening.mirror x)) as [[[a|e] s] l] eqn:E;
      project; rewrite IH by exact H; reflexivity.
Qed.

Lemma create_covered (t ts : Handle) (h : Heap) :
  forallb (covers (encodings (this (create t ts h))))
    (JsMap.values (st_encodings (tracks (heap (create t ts h)) t))) = true.
Proof.
  apply forallb_forall. intros e Hin. apply covers_keys, create_keys.
  rewrite (proj2 (proj2 (proj2 (create_fields t ts h)))) in Hin.
  apply in_map. exact Hin.
Qed.


Lemma stop_heard (emit : string -> Listening.L unit) (s : State)
  (e : Listening.Emitter) (t : Handle) (x1 : Listening.Object)
  (l1 : list Entry) :
  track (this s) = Some t ->
  forallb (covers (encodings (this s)))
    (JsMap.values (st_encodings (tracks (heap s) t))) = true ->
  emit "stopped" {| Listening.mirror := s; Listening.emitter := e |}
  = (Listening.Done tt, x1, l1) ->
  Listening.stop emit {| Listening.mirror := s; Listening.emitter := e |}
  = (Listening.Done tt,
     {| Listening.mirror := halted (Listening.mirror x1);
        Listening.emitter := Listening.emitter x1 |},
     stamp (counter (this s))
       (removals (encodings (this s))
          (JsMap.values (st_encodings (tracks (heap s) t)))
        ++ stops (encodings (this s)))
     ++ l1).
Proof.
  intros Ht Hcov Hemit. unfold Listening.stop.
  rewrite lbind_lift. unfold get_this at 1. cbv beta iota.
  cbn [Listening.mirror Listening.emitter]. rewrite Ht.
  rewrite lbind_lift. unfold read_track at 1. cbv beta iota.
  cbn [Listening.mirror Listening.emitter].
  rewrite lbind_lift, removal_loop. cbn [Listening.mirror Listening.emitter].
  rewrite Hcov. cbv beta iota.
  rewrite lbind_lift. unfold get_this at 1. cbv beta iota.
  cbn [Listening.mirror Listening.emitter].
  rewrite lbind_lift, release_loop. cbv beta iota.
  cbn [Listening.mirror Listening.emitter].
  unfold Listening.lbind at 1. rewrite Hemit.
  unfold Listening.lbind, Listening.lift, set_this. cbn.
  unfold halted, stops. rewrite stamp_app, !app_nil_r, <- !app_assoc.
  reflexivity.
Qed.

Lemma emit_once_alone (invoke : Listening.Listener -> Listening.L unit)
  (g : Listening.Registration) (s : State) (n : nat)
  (x2 : Listening.Object) (l2 : list Entry) :
  Listening.reg_once g = true ->
  invoke (Listening.reg_listener g)
    {| Listening.mirror := s;
       Listening.emitter := {| Listening.registered := [];
                               Listening.fired := [Listening.reg_id g];
                               Listening.next_id := n |} |}
  = (Listening.Done tt, x2, l2) ->
  Listening.emit invoke (Listening.reg_event g)
    {| Listening.mirror := s;
       Listening.emitter := {| Listening.registered := [g];
                               Listening.fired := [];
                               Listening.next_id := n |} |}
  = (Listening.Done tt, x2, entry (Emit (Listening.reg_event g))
                                  (counter (this s)) :: l2).
Proof.
  intros Honce Hrun. unfold Listening.emit.
  rewrite lbind_lift. unfold call at 1. cbv beta iota.
  cbn [Listening.mirror Listening.emitter].
  unfold Listening.lbind at 1. unfold Listening.get_emitter at 1.
  cbv beta iota. cbn [Listening.emitter Listening.registered filter].
  rewrite String.eqb_refl. cbn [Listening.each].
  unfold Listening.lbind at 1. unfold Listening.run_registration.
  rewrite Honce. unfold Listening.lbind at 1.
  unfold Listening.get_emitter at 1. cbv beta iota.
  cbn [Listening.emitter Listening.fired existsb].
  unfold Listening.lbind at 1. unfold Listening.set_emitter at 1.
  cbv beta iota. unfold Listening.fire.
  cbn [Listening.emitter Listening.mirror Listening.registered
       Listening.fired Listening.next_id filter].
  rewrite Nat.eqb_refl. cbn [negb].
  rewrite Hrun. unfold Listening.lret. cbn. rewrite !app_nil_r.
  reflexivity.
Qed.

Lemma listener_stops (d n : nat) (s : State) (t : Handle)
  (f : list nat) :
  track (this s) = Some t ->
  forallb (covers (encodings (this s)))
    (JsMap.values (st_encodings (tracks (heap s) t))) = true ->
  Listening.sequence (Listening.perform (S d))
    (Listening.listener_calls stop_again)
    {| Listening.mirror := s;
       Listening.emitter := {| Listening.registered := [];
                               Listening.fired := f;
                               Listening.next_id := n |} |}
  = (Listening.Done tt,
     {| Listening.mirror := halted s;
        Listening.emitter := {| Listening.registered := [];
                                Listening.fired := f;
                                Listening.next_id := n |} |},
     stamp (counter (this s))
       (removals (encodings (this s))
          (JsMap.values (st_encodings (tracks (heap s) t)))
        ++ stops (encodings (this s)) ++ [Emit "stopped"])).
Proof.
  intros Ht Hcov. cbn [Listening.listener_calls stop_again Listening.sequence].
  unfold Listening.lbind at 1.
  rewrite perform_unheard by reflexivity.
  unfold Listening.lift. cbn [perform Listening.mirror Listening.emitter].
  rewrite void_eq, (stop_live s t Ht). cbv zeta. rewrite Hcov. project.
  unfold Listening.lret. rewrite app_nil_r. reflexivity.
Qed.

(** * The claims *)

(** C1.  From a freshly constructed mirror, for every sequence of
    [attached()] and [detached()] calls in which no prefix holds more
    [detached] than [attached] calls: every call returns, the counter is
    the number of attachments minus the number of detachments, and the
    events emitted are those of the specification: "attached" once per
    transition of the count from 0 to 1, "detached" once per transition
    from 1 to 0, nothing on any other transition. *)
Theorem attach_events_per_transition :
  forall (t ts : Handle) (h : Heap) (cs : list Call),
    forallb attach_or_detach cs = true ->
    balanced cs ->
    let r := run cs (create t ts h) in
    Forall (fun o => o = Return VUndefined) (outcome_of r)
    /\ counter (this (state_of r)) = attach_count cs
    /\ events (actions (entries_of r)) = transition_events 0 cs.
Proof.
  intros t ts h cs Hall Hbal.
  destruct (create_fields t ts h) as (Ht & _ & Hc & _).
  apply (refcount_run cs (create t ts h) t 0 Ht Hc Hall).
  intros k. specialize (Hbal k). lia.
Qed.

(** The scenario of the specification: two attachments, two detachments. *)
Lemma attach_events_per_transition_witness :
  let r := run [CallAttached; CallAttached; CallDetached; CallDetached]
               sample_mirror in
  Forall (fun o => o = Return VUndefined) (outcome_of r)
  /\ counter (this (state_of r))
     = attach_count [CallAttached; CallAttached; CallDetached; CallDetached]
  /\ events (actions (entries_of r))
     = transition_events 0
         [CallAttached; CallAttached; CallDetached; CallDetached].
Proof.
  apply (attach_events_per_transition 0%nat 1%nat sample_heap
           [CallAttached; CallAttached; CallDetached; CallDetached]).
  - reflexivity.
  - intros n. do 4 (destruct n as [|n]; [vm_compute; lia|]).
    destruct n; vm_compute; lia.
Defined.

(** C2, at the failing input.  On every constructed mirror, with a listener
    given to [once("stopped", ...)] that calls [stop()], one call of
    [stop()] runs the body of [stop] twice: "stopped" is emitted at l.249
    while [this.track], which the guard at l.221 tests, is cleared only at
    l.255, so the [stop()] of the listener passes the guard.  Both requests
    return, "stopped" is emitted twice and [Stop] is called twice on every
    native object of the mapping. *)
Theorem stop_reentered_by_listener :
  forall (t ts : Handle) (h : Heap) (d : nat),
    let r := Listening.serve (S (S d))
               [Listening.Once "stopped" stop_again;
                Listening.Invoke CallStop]
               (Listening.with_emitter (create t ts h)) in
    outcome_of r = [Listening.Done VUndefined; Listening.Done VUndefined]
    /\ events (actions (entries_of r)) = ["stopped"; "stopped"]
    /\ released (actions (entries_of r))
       = owned (encodings (this (create t ts h)))
         ++ owned (encodings (this (create t ts h)))
    /\ stopped (Listening.mirror (state_of r)) = true.
Proof.
  intros t ts h d.
  destruct (create_fields t ts h) as (Ht & _ & Hc & _).
  pose proof (create_covered t ts h) as Hcov.
  set (s := create t ts h) in *.
  set (g := {| Listening.reg_id := 0; Listening.reg_event := "stopped";
               Listening.reg_once := true;
               Listening.reg_listener := stop_again |}).
  assert (E : Listening.perform (S (S d)) CallStop
                {| Listening.mirror := s;
                   Listening.emitter := {| Listening.registered := [g];
                                           Listening.fired := [];
                                           Listening.next_id := 1 |} |}
              = (Listening.Done VUndefined,
                 {| Listening.mirror := halted s;
                    Listening.emitter := {| Listening.registered := [];
                                            Listening.fired := [0%nat];
                                            Listening.next_id := 1 |} |},
                 stamp (counter (this s))
                   (removals (encodings (this s))
                      (JsMap.values (st_encodings (tracks (heap s) t)))
                    ++ stops (encodings (this s)))
                 ++ entry (Emit "stopped") (counter (this s))
                    :: stamp (counter (this s))
                         (removals (encodings (this s))
                            (JsMap.values
                               (st_encodings (tracks (heap s) t)))
                          ++ stops (encodings (this s))
                          ++ [Emit "stopped"]))).
  { change (Listening.perform (S (S d)) CallStop)
      with (Listening.lvoid
              (Listening.stop
                 (Listening.emit
                    (fun l => Listening.sequence (Listening.perform (S d))
                                (Listening.listener_calls l))))).
    unfold Listening.lvoid. unfold Listening.lbind at 1.
    pose proof (emit_once_alone
                  (fun l => Listening.sequence (Listening.perform (S d))
                              (Listening.listener_calls l))
                  g s 1 _ _ eq_refl
                  (listener_stops d 1 s t [0%nat] Ht Hcov)) as Hemit.
    rewrite (stop_heard _ s _ t _ _ Ht Hcov Hemit).
    unfold Listening.lret. cbn [Listening.mirror Listening.emitter].
    rewrite app_nil_r. reflexivity. }
  subst g.
  match type of E with
  | _ = (?o, ?x, ?l) =>
      assert (R : Listening.serve (S (S d))
                    [Listening.Once "stopped" stop_again;
                     Listening.Invoke CallStop]
                    (Listening.with_emitter s)
                  = ([Listening.Done VUndefined; o], x, l ++ []))
  end.
  { cbn [Listening.serve Listening.request].
    unfold Listening.lvoid at 1. unfold Listening.lbind at 1.
    unfold Listening.once, Listening.set_emitter, Listening.lret,
      Listening.with_emitter, Listening.register.
    cbn [app Listening.registered Listening.fired Listening.next_id
         Listening.emitter Listening.mirror].
    rewrite E. reflexivity. }
  cbv zeta. rewrite R. project. rewrite app_nil_r.
  rewrite actions_app. change (entry (Emit "stopped") (counter (this s))
                               :: stamp (counter (this s))
                                    (removals (encodings (this s))
                                       (JsMap.values
                                          (st_encodings (tracks (heap s) t)))
                                     ++ stops (encodings (this s))
                                     ++ [Emit "stopped"]))
    with (stamp (counter (this s))
            (Emit "stopped"
             :: removals (encodings (this s))
                  (JsMap.values (st_encodings (tracks (heap s) t)))
                ++ stops (encodings (this s)) ++ [Emit "stopped"])).
  rewrite !actions_stamp.
  rewrite events_app, released_app. cbn [events released].
  rewrite events_app, released_app.
  destruct (removals_quiet (encodings (this s))
              (JsMap.values (st_encodings (tracks (heap s) t)))) as [E1 E2].
  destruct (stops_read (encodings (this s))) as [E3 E4].
  destruct (completed_stop_read (encodings (this s))
              (JsMap.values (st_encodings (tracks (heap s) t)))) as [E5 E6].
  rewrite E1, E2, E3, E4, E5, E6. cbn [app]. auto.
Qed.

(** On the mirror of the track with the encoding "0": the multiplexer 100
    and the depacketizer 101 are stopped twice each. *)
Lemma stop_reentered_on_sample :
  let r := Listening.serve 2
             [Listening.Once "stopped" stop_again; Listening.Invoke CallStop]
             (Listening.with_emitter sample_mirror) in
  outcome_of r = [Listening.Done VUndefined; Listening.Done VUndefined]
  /\ events (actions (entries_of r)) = ["stopped"; "stopped"]
  /\ released (actions (entries_of r)) = [100; 101; 100; 101]%nat
  /\ stopped (Listening.mirror (state_of r)) = true.
Proof.
  apply (stop_reentered_by_listener 0%nat 1%nat sample_heap 0%nat).
Defined.

(** C3, as the code has it.  A [detached()] call on a live mirror whose
    counter is zero or less returns normally, forwards the notification to
    the original track, lowers the counter by one, so below zero, and makes
    no other call: nothing is emitted and nothing is reported. *)
Theorem unbalanced_detach_goes_negative :
  forall (s : State) (t : Handle),
    track (this s) = Some t ->
    counter (this s) <= 0 ->
    detached s =
      (Return tt, with_counter (counter (this s) - 1) s,
       [entry (TrackDetached t) (counter (this s))])
    /\ counter (this (state_of (detached s))) < 0.
Proof.
  intros s t Ht Hc. rewrite (detached_live s t Ht). project.
  destruct (Z.eqb_spec (counter (this s) - 1) 0) as [E|E]; [lia|].
  split; [reflexivity|]. cbn. lia.
Qed.

Lemma unbalanced_detach_goes_negative_witness :
  detached sample_mirror =
    (Return tt, with_counter (counter (this sample_mirror) - 1) sample_mirror,
     [entry (TrackDetached 0%nat) (counter (this sample_mirror))])
  /\ counter (this (state_of (detached sample_mirror))) < 0.
Proof.
  apply (unbalanced_detach_goes_negative sample_mirror 0%nat).
  - reflexivity.
  - vm_compute. discriminate.
Defined.

(** C3 as stated fails: on a fresh mirror, whose counter is zero, one
    [detached()] leaves the counter at -1, not at zero, and the only call
    made is the notification of the original track. *)
Lemma detach_on_zero_not_saturating :
  counter (this sample_mirror) = 0
  /\ counter (this (state_of (detached sample_mirror))) = -1
  /\ counter (this (state_of (detached sample_mirror))) <> 0
  /\ outcome_of (detached sample_mirror) = Return tt
  /\ actions (entries_of (detached sample_mirror)) = [TrackDetached 0%nat].
Proof.
  repeat split; try reflexivity. vm_compute. discriminate.
Qed.

(** C9.  In every [attached()] call on a live mirror the original track is
    notified while the counter still has its old value, then the counter
    is raised, and "attached" is emitted, or not, on the raised value; the
    same for [detached()] with the lowered value.  On a stopped mirror the
    notification throws before the counter is touched. *)
Theorem forward_precedes_count :
  forall s : State,
    attached s =
      match track (this s) with
      | Some t =>
          (Return tt, with_counter (counter (this s) + 1) s,
           entry (TrackAttached t) (counter (this s))
           :: (if counter (this s) + 1 =? 1
               then [entry (Emit "attached") (counter (this s) + 1)]
               else []))
      | None => (Throw TypeError, s, [])
      end
    /\ detached s =
      match track (this s) with
      | Some t =>
          (Return tt, with_counter (counter (this s) - 1) s,
           entry (TrackDetached t) (counter (this s))
           :: (if counter (this s) - 1 =? 0
               then [entry (Emit "detached") (counter (this s) - 1)]
               else []))
      | None => (Throw TypeError, s, [])
      end.
Proof.
  intros s. destruct (track (this s)) as [t|] eqn:Ht; split.
  - apply attached_live. exact Ht.
  - apply detached_live. exact Ht.
  - apply attached_stopped. exact Ht.
  - apply detached_stopped. exact Ht.
Qed.

(** C4, as the code has it.  On a constructed mirror that any sequence of
    calls has left stopped: [stop()] returns at once on its guard and
    [refresh()] returns without a request, the mapping being empty; both
    leave the state as it is.  [attached()] and [detached()] have no
    guard: they throw a TypeError on the null track reference, before the
    counter changes and before any call leaves the class. *)
Theorem calls_after_stop :
  forall (t ts : Handle) (h : Heap) (cs : list Call),
    let s := state_of (run cs (create t ts h)) in
    stopped s = true ->
    stop s = (Return tt, s, [])
    /\ refresh s = (Return tt, s, [])
    /\ attached s = (Throw TypeError, s, [])
    /\ detached s = (Throw TypeError, s, []).
Proof.
  intros t ts h cs s Hs.
  pose proof (run_mirror_of t _ _ cs _ (create_mirror_of t ts h)) as Hm.
  fold s in Hm.
  destruct Hm as [(Ht & _)|(Ht & _ & He)];
    [unfold stopped in Hs; rewrite Ht in Hs; discriminate|].
  repeat split.
  - apply stop_stopped. exact Ht.
  - apply refresh_empty. exact He.
  - apply attached_stopped. exact Ht.
  - apply detached_stopped. exact Ht.
Qed.

Lemma calls_after_stop_witness :
  let s := state_of (run [CallAttached; CallStop] sample_mirror) in
  stopped s = true
  /\ stop s = (Return tt, s, [])
  /\ refresh s = (Return tt, s, [])
  /\ attached s = (Throw TypeError, s, [])
  /\ detached s = (Throw TypeError, s, []).
Proof.
  split.
  - reflexivity.
  - apply (calls_after_stop 0%nat 1%nat sample_heap [CallAttached; CallStop]).
    reflexivity.
Defined.

(** C4 as stated fails: after a completed [stop()], [attached()] and
    [detached()] do not return normally. *)
Lemma attach_after_stop_throws :
  outcome_of (run [CallStop; CallAttached; CallDetached; CallRefresh; CallStop]
                  sample_mirror)
  = [Return VUndefined; Throw TypeError; Throw TypeError;
     Return VUndefined; Return VUndefined]
  /\ outcome_of (attached (state_of (stop sample_mirror))) <> Return tt
  /\ outcome_of (detached (state_of (stop sample_mirror))) <> Return tt.
Proof.
  repeat split; try reflexivity; vm_compute; discriminate.
Qed.

(** C5, at the failing inputs.  The first loop of [stop] goes over the
    encodings the original track has when [stop()] runs (l.224), not over
    the mapping of the mirror as the second loop does (l.233).  When the
    track has gained the encoding "1" since the construction, the first
    [stop()] on the live mirror throws a TypeError after the listener
    removal of "0": nothing is stopped, "stopped" is not emitted, the
    mapping and both references stay.  When the track has lost its
    encodings, [stop()] returns and emits "stopped" but removes no
    listener: the multiplexer the constructor added to the packet source
    stays on it. *)
Theorem stop_first_loop_follows_track :
  let gained := state_of
                  (run [SourceChanges 0%nat
                          (add_encoding (sample_encoding "1" 21%nat 2000))]
                       sample_mirror) in
  let lost := state_of (run [SourceChanges 0%nat drop_encodings]
                            sample_mirror) in
  let source := {| ps_handle := 20%nat; ps_ssrc := 1000 |} in
  let buffer := {| mux_handle := 100%nat; mux_ssrc := 1000;
                   mux_time := 1%nat |} in
  added (actions (entries_of (constructor 0%nat 1%nat sample_heap)))
  = [(source, buffer)]
  /\ (stopped gained = false
      /\ outcome_of (stop gained) = Throw TypeError
      /\ removed (actions (entries_of (stop gained))) = [(source, buffer)]
      /\ released (actions (entries_of (stop gained))) = []
      /\ events (actions (entries_of (stop gained))) = []
      /\ state_of (stop gained) = gained
      /\ encodings (this (state_of (stop gained))) <> []
      /\ track (this (state_of (stop gained))) = Some 0%nat)
  /\ (stopped lost = false
      /\ outcome_of (stop lost) = Return tt
      /\ removed (actions (entries_of (stop lost))) = []
      /\ released (actions (entries_of (stop lost))) = [100; 101]%nat
      /\ events (actions (entries_of (stop lost))) = ["stopped"]
      /\ stopped (state_of (stop lost)) = true).
Proof.
  repeat split; try reflexivity. vm_compute. discriminate.
Qed.

(** C6.  The constructor returns; the ids under which the mirror's mapping
    holds an entry are exactly the ids of the encodings the original track
    has at that moment; when those ids are the keys of the track's Map (no
    two encodings share an id), for each encoding a multiplexer with the
    encoding's ssrc and the time service is added as a listener to the
    encoding's packet source, and the entry stored under the encoding's id
    holds that multiplexer and a depacketizer built on it; and whatever the
    owner of the track does to it afterwards, as long as [stop()] is not
    called the mapping stays the one of the construction. *)
Theorem construction_snapshot :
  forall (t ts : Handle) (h : Heap),
    let r := constructor t ts h in
    let src := JsMap.values (st_encodings (tracks h t)) in
    outcome_of r = Return tt
    /\ (forall id : string,
          In id (JsMap.keys (encodings (this (state_of r))))
          <-> In id (map enc_id src))
    /\ (NoDup (map enc_id src) ->
        forall e : Encoding, In e src ->
          exists (m : Multiplexer) (d : Depacketizer),
            mux_ssrc m = ps_ssrc (enc_source e)
            /\ mux_time m = ts
            /\ dep_source d = m
            /\ In (AddListener (enc_source e) m) (actions (entries_of r))
            /\ JsMap.get (enc_id e) (encodings (this (state_of r)))
               = Some {| em_id := enc_id e;
                         em_source := m;
                         em_depacketizer := d |})
    /\ (forall cs : list Call,
          existsb is_stop cs = false ->
          encodings (this (state_of (run cs (state_of r))))
          = encodings (this (state_of r))).
Proof.
  intros t ts h r src. repeat split.
  - apply construct_returns.
  - apply (create_keys t ts h id).
  - apply (create_keys t ts h id).
  - intros Hnd e Hin. apply (construct_stores ts src _ e Hnd Hin).
  - intros cs Hn.
    apply (run_without_stop t (st_receiver (tracks h t))
             (encodings (this (create t ts h))) cs (create t ts h)).
    + apply create_mirror_of.
    + unfold stopped. rewrite (proj1 (create_fields t ts h)). reflexivity.
    + exact Hn.
Qed.

(** The track of one encoding gains a second one after the construction:
    the mapping keeps the single entry "0". *)
Lemma construction_snapshot_witness :
  (exists (m : Multiplexer) (d : Depacketizer),
     mux_ssrc m = 1000
     /\ mux_time m = 1%nat
     /\ dep_source d = m
     /\ In (AddListener {| ps_handle := 20%nat; ps_ssrc := 1000 |} m)
           (actions (entries_of (constructor 0%nat 1%nat sample_heap)))
     /\ JsMap.get "0" (encodings (this sample_mirror))
        = Some {| em_id := "0"; em_source := m; em_depacketizer := d |})
  /\ JsMap.keys
       (encodings
          (this (state_of
                   (run [SourceChanges 0%nat
                           (add_encoding (sample_encoding "1" 21%nat 2000));
                         CallRefresh]
                        sample_mirror))))
     = ["0"].
Proof.
  pose proof (construction_snapshot 0%nat 1%nat sample_heap)
    as (_ & _ & Hstore & Hkeep).
  split.
  - apply (Hstore ltac:(vm_compute; repeat constructor; intros [])
             (sample_encoding "0" 20%nat 1000)).
    left. reflexivity.
  - exact (f_equal (@JsMap.keys EncodingMirror)
             (Hkeep [SourceChanges 0%nat
                       (add_encoding (sample_encoding "1" 21%nat 2000));
                     CallRefresh] eq_refl)).
Defined.

(** C7.  In every state a sequence of calls leaves a constructed mirror
    in, [refresh()] returns [undefined], changes nothing, and sends one
    PLI per entry of the mapping, in the order of the mapping, each through
    the receiver the original track had at the construction and for the
    ssrc of that entry's multiplexer; on a stopped mirror it sends none. *)
Theorem refresh_requests :
  forall (t ts : Handle) (h : Heap) (cs : list Call),
    let s := state_of (run cs (create t ts h)) in
    refresh s =
      (Return tt, s,
       map (fun x => entry (SendPLI (st_receiver (tracks h t))
                                    (mux_ssrc (em_source x)))
                           (counter (this s)))
           (JsMap.values (encodings (this s))))
    /\ (stopped s = true -> refresh s = (Return tt, s, [])).
Proof.
  intros t ts h cs s.
  pose proof (run_mirror_of t _ _ cs _ (create_mirror_of t ts h)) as Hm.
  fold s in Hm.
  destruct Hm as [(Ht & Hr & _)|(Ht & _ & He)].
  - split; [apply refresh_live; exact Hr|].
    unfold stopped. rewrite Ht. discriminate.
  - rewrite (refresh_empty s He), He. auto.
Qed.

Lemma refresh_requests_witness :
  refresh sample_mirror
  = (Return tt, sample_mirror, [entry (SendPLI 7%nat 1000) 0])
  /\ stopped (state_of (run [CallStop] sample_mirror)) = true
  /\ refresh (state_of (run [CallStop] sample_mirror))
     = (Return tt, state_of (run [CallStop] sample_mirror), []).
Proof.
  split; [|split].
  - apply (proj1 (refresh_requests 0%nat 1%nat sample_heap [])).
  - reflexivity.
  - apply (proj2 (refresh_requests 0%nat 1%nat sample_heap [CallStop])).
    reflexivity.
Defined.

(** C8.  On a live mirror each of [getStats], [getActiveLayers], [getId],
    [getTrackInfo], [getSSRCs] and [getMedia] calls the method of the same
    name of the original track, returns what the track answers, and leaves
    the state, so the counter, the mapping and both references, as it
    is. *)
Theorem queries_forward :
  forall (s : State) (t : Handle),
    track (this s) = Some t ->
    let answer q :=
      (Return (st_answer (tracks (heap s) t) q), s,
       [entry (TrackQuery t q) (counter (this s))]) in
    getStats s = answer GetStats
    /\ getActiveLayers s = answer GetActiveLayers
    /\ getId s = answer GetId
    /\ getTrackInfo s = answer GetTrackInfo
    /\ getSSRCs s = answer GetSSRCs
    /\ getMedia s = answer GetMedia.
Proof.
  intros s t Ht answer. unfold answer.
  repeat split; apply query_live; exact Ht.
Qed.

Lemma queries_forward_witness :
  getStats sample_mirror
  = (Return (VObject 30%nat), sample_mirror,
     [entry (TrackQuery 0%nat GetStats) 0])
  /\ getMedia sample_mirror
     = (Return (VString "video"), sample_mirror,
        [entry (TrackQuery 0%nat GetMedia) 0]).
Proof.
  pose proof (queries_forward sample_mirror 0%nat eq_refl)
    as (H1 & _ & _ & _ & _ & H6).
  split; [exact H1|exact H6].
Defined.

(** C10.  On a live mirror left by any sequence of calls, [stop()] returns
    only if the id of every encoding the original track has at that moment
    was the id of one of its encodings at the construction.  When some
    encoding has an id that was not, [stop()] throws a TypeError at the
    first such encoding, having made only the listener removals of the
    encodings before it: the state is unchanged, so nothing is stopped,
    nothing is emitted and nothing is removed for the encodings that
    follow. *)
Theorem stop_needs_known_encodings :
  forall (t ts : Handle) (h : Heap) (cs : list Call),
    let s := state_of (run cs (create t ts h)) in
    let now := JsMap.values (st_encodings (tracks (heap s) t)) in
    let before := map enc_id (JsMap.values (st_encodings (tracks h t))) in
    stopped s = false ->
    (outcome_of (stop s) = Return tt ->
     forall e : Encoding, In e now -> In (enc_id e) before)
    /\ (forall e : Encoding, In e now -> ~ In (enc_id e) before ->
        exists pre e' post,
          now = pre ++ e' :: post
          /\ ~ In (enc_id e') before
          /\ (forall x : Encoding, In x pre -> In (enc_id x) before)
          /\ List.length (removals (encodings (this s)) pre) = List.length pre
          /\ stop s =
               (Throw TypeError, s,
                stamp (counter (this s))
                  (removals (encodings (this s)) pre))).
Proof.
  intros t ts h cs s now before Hs.
  pose proof (run_mirror_of t _ _ cs _ (create_mirror_of t ts h)) as Hm.
  fold s in Hm.
  destruct Hm as [(Ht & _ & He)|(Ht & _)];
    [|unfold stopped in Hs; rewrite Ht in Hs; discriminate].
  assert (Hcov : forall e, covers (encodings (this s)) e = true
                           <-> In (enc_id e) before).
  { intros e. rewrite covers_keys, He. apply create_keys. }
  rewrite (stop_live s t Ht). cbv zeta. fold now.
  destruct (forallb (covers (encodings (this s))) now) eqn:Hall.
  - split.
    + intros _ e Hin. apply Hcov.
      rewrite forallb_forall in Hall. apply Hall. exact Hin.
    + intros e Hin Hn. exfalso. apply Hn. apply Hcov.
      rewrite forallb_forall in Hall. apply Hall. exact Hin.
  - split; [discriminate|].
    intros _ _ _.
    destruct (first_uncovered _ _ Hall) as (pre & e' & post & E1 & E2 & E3 & E4).
    exists pre, e', post. repeat split.
    + exact E1.
    + intros Hin. apply Hcov in Hin. congruence.
    + intros x Hx. apply Hcov.
      rewrite forallb_forall in E2. apply E2. exact Hx.
    + apply removals_length. exact E2.
    + rewrite E4. reflexivity.
Qed.

Lemma stop_needs_known_encodings_witness :
  let s := state_of
             (run [SourceChanges 0%nat
                     (add_encoding (sample_encoding "1" 21%nat 2000))]
                  sample_mirror) in
  stopped s = false
  /\ exists pre e' post,
       JsMap.values (st_encodings (tracks (heap s) 0%nat)) = pre ++ e' :: post
       /\ ~ In (enc_id e') ["0"]
       /\ (forall x : Encoding, In x pre -> In (enc_id x) ["0"])
       /\ List.length (removals (encodings (this s)) pre) = List.length pre
       /\ stop s =
            (Throw TypeError, s,
             stamp (counter (this s)) (removals (encodings (this s)) pre)).
Proof.
  split; [reflexivity|].
  apply (proj2 (stop_needs_known_encodings 0%nat 1%nat sample_heap
                  [SourceChanges 0%nat
                     (add_encoding (sample_encoding "1" 21%nat 2000))]
                  eq_refl)
           (sample_encoding "1" 21%nat 2000)).
  - right. left. reflexivity.
  - intros [H|[]]. discriminate H.
Defined.

(** * Further properties of the class *)

(** ** One call, in closed form *)

Lemma stopped_of_track (s : State) (t : Handle) :
  track (this s) = Some t -> stopped s = false.
Proof. intros H. unfold stopped. rewrite H. reflexivity. Qed.

Lemma stopped_of_null (s : State) :
  track (this s) = None -> stopped s = true.
Proof. intros H. unfold stopped. rewrite H. reflexivity. Qed.

Lemma perform_step (t r : Handle) (m0 : JsMap.t EncodingMirror)
  (c : Call) (s : State) :
  mirror_of t r m0 s -> perform c s = step t r c s.
Proof.
  intros [(Ht & Hr & He)|(Ht & Hr & He)].
  - pose proof (stopped_of_track s t Ht) as Hs.
    destruct c; cbn [perform step]; rewrite ?void_eq, ?Hs.
    + rewrite (attached_live s t Ht). reflexivity.
    + rewrite (detached_live s t Ht). reflexivity.
    + rewrite (refresh_live s r Hr). project. unfold stamp.
      rewrite map_map. reflexivity.
    + rewrite (stop_live s t Ht). cbv zeta.
      destruct (forallb _ _); reflexivity.
    + rewrite (query_live q s t Ht). reflexivity.
    + reflexivity.
  - pose proof (stopped_of_null s Ht) as Hs.
    destruct c; cbn [perform step]; rewrite ?void_eq, ?Hs.
    + rewrite (attached_stopped s Ht). reflexivity.
    + rewrite (detached_stopped s Ht). reflexivity.
    + rewrite (refresh_empty s He), He. reflexivity.
    + rewrite (stop_stopped s Ht). reflexivity.
    + rewrite (query_stopped q s Ht). reflexivity.
    + reflexivity.
Qed.

(** ** Readings of the lists a call leaves *)

Lemma forwarded_app (l1 l2 : list Action) :
  forwarded (l1 ++ l2) = forwarded l1 + forwarded l2.
Proof.
  induction l1 as [|a l1 IH]; [reflexivity|].
  destruct a; cbn [app forwarded]; rewrite IH; lia.
Qed.

Lemma removed_app (l1 l2 : list Action) :
  removed (l1 ++ l2) = removed l1 ++ removed l2.
Proof.
  induction l1 as [|a l1 IH]; [reflexivity|].
  destruct a; cbn; rewrite IH; reflexivity.
Qed.

Lemma removals_read (m : JsMap.t EncodingMirror) (encs : list Encoding) :
  forwarded (removals m encs) = 0
  /\ forallb (fun a => negb (sets_up a)) (removals m encs) = true.
Proof.
  induction encs as [|e r [IH1 IH2]]; cbn; [auto|].
  destruct (JsMap.get (enc_id e) m); cbn; auto.
Qed.

Lemma stops_quiet (m : JsMap.t EncodingMirror) :
  forwarded (stops m) = 0
  /\ removed (stops m) = []
  /\ forallb (fun a => negb (sets_up a)) (stops m) = true.
Proof.
  unfold stops, JsMap.values.
  induction m as [|[k x] r (IH1 & IH2 & IH3)]; cbn; auto.
Qed.

Lemma requests_quiet (r : Handle) (l : list EncodingMirror) :
  let reqs := map (fun x => SendPLI r (mux_ssrc (em_source x))) l in
  forwarded reqs = 0
  /\ events reqs = []
  /\ forallb (fun a => negb (sets_up a)) reqs = true.
Proof.
  induction l as [|x l (IH1 & IH2 & IH3)]; cbn; auto.
Qed.

Lemma completed_stop_quiet (m : JsMap.t EncodingMirror)
  (encs : list Encoding) :
  let l := removals m encs ++ stops m ++ [Emit "stopped"] in
  forwarded l = 0
  /\ removed l = removed (removals m encs)
  /\ forallb (fun a => negb (sets_up a)) l = true.
Proof.
  cbv zeta. rewrite !forwarded_app, !removed_app, !forallb_app.
  destruct (removals_read m encs) as [-> ->].
  destruct (stops_quiet m) as (-> & -> & ->). cbn.
  rewrite app_nil_r. auto.
Qed.

(** ** Invariants of a sequence of calls *)

Lemma step_forwarded (t r : Handle) (c : Call) (s : State) :
  counter (this (state_of (step t r c s)))
  = counter (this s) + forwarded (actions (entries_of (step t r c s))).
Proof.
  destruct c; unfold step; cbv zeta.
  - destruct (stopped s); project; [cbn; lia|].
    destruct (counter (this s) + 1 =? 1); cbn; lia.
  - destruct (stopped s); project; [cbn; lia|].
    destruct (counter (this s) - 1 =? 0); cbn; lia.
  - project. rewrite actions_stamp.
    destruct (requests_quiet r (JsMap.values (encodings (this s))))
      as (E & _). cbv zeta in E. rewrite E. lia.
  - destruct (stopped s); project; [cbn; lia|].
    destruct (forallb _ _); project; rewrite actions_stamp.
    + destruct (completed_stop_quiet (encodings (this s))
                  (JsMap.values (st_encodings (tracks (heap s) t))))
        as (E & _). cbv zeta in E. rewrite E. cbn. lia.
    + destruct (removals_read (encodings (this s))
                  (JsMap.values (st_encodings (tracks (heap s) t))))
        as (E & _). rewrite E. lia.
  - destruct (stopped s); project; cbn; lia.
  - project. cbn. lia.
Qed.

Lemma run_forwarded (t r : Handle) (m0 : JsMap.t EncodingMirror)
  (cs : list Call) (s : State) :
  mirror_of t r m0 s ->
  counter (this (state_of (run cs s)))
  = counter (this s) + forwarded (actions (entries_of (run cs s))).
Proof.
  revert s. induction cs as [|c cs IH]; intros s Hm; [cbn; lia|].
  rewrite run_cons. project. rewrite actions_app, forwarded_app.
  rewrite (IH _ (perform_mirror_of t r m0 c s Hm)).
  rewrite (perform_step t r m0 c s Hm), (step_forwarded t r c s). lia.
Qed.

Lemma step_alternates (t r : Handle) (c : Call) (s : State)
  (rest : list string) :
  alternates (counter (this (state_of (step t r c s))) <=? 0) rest = true ->
  alternates (counter (this s) <=? 0)
    (events (actions (entries_of (step t r c s))) ++ rest) = true.
Proof.
  destruct c; unfold step; cbv zeta.
  - destruct (stopped s); project; [auto|].
    cbn [with_counter this counter set_counter].
    destruct (Z.eqb_spec (counter (this s) + 1) 1) as [E|E]; cbn.
    + intros H. destruct (Z.leb_spec (counter (this s) + 1) 0); [lia|].
      destruct (Z.leb_spec (counter (this s)) 0); [exact H|lia].
    + intros H.
      destruct (Z.leb_spec (counter (this s) + 1) 0);
        destruct (Z.leb_spec (counter (this s)) 0); try exact H; lia.
  - destruct (stopped s); project; [auto|].
    cbn [with_counter this counter set_counter].
    destruct (Z.eqb_spec (counter (this s) - 1) 0) as [E|E]; cbn.
    + intros H. destruct (Z.leb_spec (counter (this s) - 1) 0); [|lia].
      destruct (Z.leb_spec (counter (this s)) 0); [lia|exact H].
    + intros H.
      destruct (Z.leb_spec (counter (this s) - 1) 0);
        destruct (Z.leb_spec (counter (this s)) 0); try exact H; lia.
  - project. rewrite actions_stamp.
    destruct (requests_quiet r (JsMap.values (encodings (this s))))
      as (_ & E & _). cbv zeta in E. rewrite E. auto.
  - destruct (stopped s); project; [auto|].
    destruct (forallb _ _); project; rewrite actions_stamp.
    + destruct (completed_stop_read (encodings (this s))
                  (JsMap.values (st_encodings (tracks (heap s) t))))
        as (E & _). rewrite E. cbn. auto.
    + destruct (removals_quiet (encodings (this s))
                  (JsMap.values (st_encodings (tracks (heap s) t))))
        as (E & _). rewrite E. auto.
  - destruct (stopped s); project; auto.
  - project. auto.
Qed.

Lemma run_alternates (t r : Handle) (m0 : JsMap.t EncodingMirror)
  (cs : list Call) (s : State) :
  mirror_of t r m0 s ->
  alternates (counter (this s) <=? 0)
    (events (actions (entries_of (run cs s)))) = true.
Proof.
  revert s. induction cs as [|c cs IH]; intros s Hm; [reflexivity|].
  rewrite run_cons. project. rewrite actions_app, events_app.
  pose proof (IH _ (perform_mirror_of t r m0 c s Hm)) as H.
  rewrite (perform_step t r m0 c s Hm) in *.
  apply step_alternates. exact H.
Qed.

Lemma step_sets_up_nothing (t r : Handle) (c : Call) (s : State) :
  next (heap (state_of (step t r c s))) = next (heap s)
  /\ forallb (fun a => negb (sets_up a))
       (actions (entries_of (step t r c s))) = true.
Proof.
  destruct c; unfold step; cbv zeta.
  - destruct (stopped s); project; [auto|].
    destruct (counter (this s) + 1 =? 1); auto.
  - destruct (stopped s); project; [auto|].
    destruct (counter (this s) - 1 =? 0); auto.
  - project. rewrite actions_stamp.
    destruct (requests_quiet r (JsMap.values (encodings (this s))))
      as (_ & _ & E). auto.
  - destruct (stopped s); project; [auto|].
    destruct (forallb _ _); project; rewrite actions_stamp.
    + destruct (completed_stop_quiet (encodings (this s))
                  (JsMap.values (st_encodings (tracks (heap s) t))))
        as (_ & _ & E). auto.
    + destruct (removals_read (encodings (this s))
                  (JsMap.values (st_encodings (tracks (heap s) t))))
        as (_ & E). auto.
  - destruct (stopped s); project; auto.
  - project. auto.
Qed.

Lemma run_sets_up_nothing (t r : Handle) (m0 : JsMap.t EncodingMirror)
  (cs : list Call) (s : State) :
  mirror_of t r m0 s ->
  next (heap (state_of (run cs s))) = next (heap s)
  /\ forallb (fun a => negb (sets_up a))
       (actions (entries_of (run cs s))) = true.
Proof.
  revert s. induction cs as [|c cs IH]; intros s Hm; [auto|].
  rewrite run_cons. project. rewrite actions_app, forallb_app.
  destruct (IH _ (perform_mirror_of t r m0 c s Hm)) as [H1 H2].
  rewrite H1, H2. rewrite (perform_step t r m0 c s Hm).
  destruct (step_sets_up_nothing t r c s) as [H3 H4].
  rewrite H3, H4. auto.
Qed.

(** ** The constructor, in closed form *)

Lemma construct_trace_eq (ts : Handle) (encs : list Encoding) (s : State) :
  let r := for_each encs (mirror_encoding ts) s in
  entries_of r
  = stamp (counter (this s)) (construct_trace ts (next (heap s)) encs)
  /\ next (heap (state_of r))
     = (next (heap s) + 2 * List.length encs)%nat.
Proof.
  revert s. induction encs as [|e r IH]; intros s; cbv zeta.
  - cbn. split; [reflexivity|lia].
  - rewrite construct_cons. project.
    destruct (IH (mirrored ts e s)) as [E1 E2]. rewrite E1, E2.
    rewrite mirror_encoding_eq. project. cbn [construct_trace List.length].
    split; [reflexivity|]. cbn [mirrored heap next]. lia.
Qed.

Lemma set_absent {V : Type} (k : string) (v : V) (m : JsMap.t V) :
  ~ In k (JsMap.keys m) -> JsMap.set k v m = m ++ [(k, v)].
Proof.
  induction m as [|[k0 v0] r IH]; intros Hn; [reflexivity|].
  cbn in Hn. cbn [JsMap.set app].
  destruct (String.eqb_spec k k0) as [->|Hk]; [tauto|].
  rewrite IH by tauto. reflexivity.
Qed.


Lemma construct_built (ts : Handle) (encs : list Encoding) (s : State) :
  NoDup (map enc_id encs) ->
  (forall e, In e encs -> ~ In (enc_id e) (JsMap.keys (encodings (this s)))) ->
  encodings (this (state_of (for_each encs (mirror_encoding ts) s)))
  = encodings (this s) ++ built ts (next (heap s)) encs.
Proof.
  revert s. induction encs as [|e r IH]; intros s Hnd Hfresh.
  - cbn. rewrite app_nil_r. reflexivity.
  - rewrite construct_cons. project.
    inversion Hnd as [|? ? Hn Hnd']; subst.
    rewrite IH; [|exact Hnd'|].
    + cbn [mirrored this heap next set_encodings encodings built].
      rewrite set_absent by (apply Hfresh; left; reflexivity).
      rewrite <- app_assoc. reflexivity.
    + intros e' Hin.
      cbn [mirrored this set_encodings encodings]. unfold JsMap.keys.
      rewrite set_absent by (apply Hfresh; left; reflexivity).
      rewrite map_app. intros H. apply in_app_or in H.
      destruct H as [H|[H|[]]].
      * apply (Hfresh e'); [right; exact Hin|exact H].
      * cbn in H. apply Hn. rewrite H. apply in_map. exact Hin.
Qed.

Lemma create_built (t ts : Handle) (h : Heap) :
  NoDup (map enc_id (JsMap.values (st_encodings (tracks h t)))) ->
  encodings (this (create t ts h))
  = built ts (next h) (JsMap.values (st_encodings (tracks h t))).
Proof.
  intros Hnd. unfold create, constructor.
  match goal with
  | |- context [for_each ?l ?b ?s] =>
      pose proof (construct_built ts l s Hnd) as H
  end.
  unfold state_of in H. rewrite H; [reflexivity|].
  intros e _ [].
Qed.


Lemma built_read (ts : Handle) (encs : list Encoding) (n : Handle) :
  owned (built ts n encs) = created (construct_trace ts n encs)
  /\ map (fun x => mux_ssrc (em_source x)) (JsMap.values (built ts n encs))
     = map (fun e => ps_ssrc (enc_source e)) encs.
Proof.
  revert n. induction encs as [|e r IH]; intros n; [auto|].
  destruct (IH (S (S n))) as [H1 H2].
  unfold owned, JsMap.values in *. cbn. rewrite H1, H2. auto.
Qed.

Lemma construct_owned_lower (ts : Handle) (encs : list Encoding) (s : State)
  (lo : Handle) :
  (forall x, In x (owned (encodings (this s))) -> (lo <= x)%nat) ->
  (lo <= next (heap s))%nat ->
  forall x,
    In x (owned (encodings
                   (this (state_of (for_each encs (mirror_encoding ts) s))))) ->
    (lo <= x)%nat.
Proof.
  revert s. induction encs as [|e r IH]; intros s Hlo Hn x; [apply Hlo|].
  rewrite construct_cons. project. apply IH.
  - cbn [mirrored this set_encodings encodings]. intros y Hy.
    apply owned_set_in in Hy. cbn in Hy.
    destruct Hy as [->|[->|Hy]]; [lia|lia|apply Hlo; exact Hy].
  - cbn [mirrored heap next]. lia.
Qed.

Lemma owned_bounds (t ts : Handle) (h : Heap) (x : Handle) :
  In x (owned (encodings (this (create t ts h)))) ->
  (next h <= x < next (heap (create t ts h)))%nat.
Proof.
  unfold create, constructor.
  match goal with
  | |- context [for_each ?l ?b ?s] =>
      pose proof (construct_owned ts l s) as Hup;
      pose proof (construct_owned_lower ts l s (next h)) as Hlow
  end.
  cbv zeta in Hup. unfold state_of in *. intros Hin. split.
  - apply Hlow; [intros y []|cbn; lia|exact Hin].
  - apply Hup; [intros y []|constructor|exact Hin].
Qed.

Lemma construct_trace_read (ts : Handle) (encs : list Encoding) (n : Handle) :
  map fst (added (construct_trace ts n encs)) = map enc_source encs
  /\ created (construct_trace ts n encs) = seq n (2 * List.length encs)
  /\ events (construct_trace ts n encs) = [].
Proof.
  revert n. induction encs as [|e r IH]; intros n; [auto|].
  destruct (IH (S (S n))) as (H1 & H2 & H3).
  cbn [construct_trace added created events map fst List.length].
  rewrite H1, H2, H3.
  replace (2 * S (List.length r))%nat with (S (S (2 * List.length r))) by lia.
  cbn. auto.
Qed.

Lemma constructor_entries (t ts : Handle) (h : Heap) :
  entries_of (constructor t ts h)
  = stamp 0 (construct_trace ts (next h)
               (JsMap.values (st_encodings (tracks h t))))
  /\ next (heap (create t ts h))
     = (next h
        + 2 * List.length (JsMap.values (st_encodings (tracks h t))))%nat.
Proof.
  unfold create, constructor.
  match goal with
  | |- context [for_each ?l ?b ?s] =>
      destruct (construct_trace_eq ts l s) as [H1 H2]
  end.
  unfold state_of in *. rewrite H1, H2. auto.
Qed.

Lemma nothing_set_up (l : list Action) :
  forallb (fun a => negb (sets_up a)) l = true ->
  added l = [] /\ created l = [].
Proof.
  induction l as [|a l IH]; [auto|].
  cbn [forallb]. intros H. apply andb_true_iff in H. destruct H as [Ha Hl].
  destruct (IH Hl) as [H1 H2].
  destruct a; cbn in Ha; try discriminate; cbn; auto.
Qed.

Lemma alternates_counts (l : list string) (b : bool) :
  alternates b l = true ->
  (count_occ string_dec l "detached" + (if b then 1 else 0)
   <= count_occ string_dec l "attached" + 1)%nat
  /\ (count_occ string_dec l "attached" + (if b then 0 else 1)
      <= count_occ string_dec l "detached" + 1)%nat.
Proof.
  revert b. induction l as [|e r IH]; intros b H.
  - cbn. destruct b; lia.
  - cbn [alternates] in H. cbn [count_occ].
    destruct (String.eqb_spec e "attached") as [->|Ha].
    + apply andb_true_iff in H. destruct H as [Hb H]. subst b.
      destruct (IH false H) as (H1 & H2).
      destruct (string_dec "attached" "detached"); [discriminate|].
      destruct (string_dec "attached" "attached"); [|congruence].
      lia.
    + destruct (String.eqb_spec e "detached") as [->|Hd].
      * apply andb_true_iff in H. destruct H as [Hb H].
        destruct b; [discriminate|].
        destruct (IH true H) as (H1 & H2).
        destruct (string_dec "detached" "detached"); [|congruence].
        destruct (string_dec "detached" "attached"); [discriminate|].
        lia.
      * destruct (string_dec e "detached"); [congruence|].
        destruct (string_dec e "attached"); [congruence|].
        apply IH. exact H.
Qed.

(** ** The properties *)

(** X1.  On a stopped mirror each of the six getters throws a TypeError on
    the null track reference; the state is unchanged and no call leaves
    the class. *)
Theorem queries_after_stop :
  forall s : State,
    stopped s = true ->
    getStats s = (Throw TypeError, s, [])
    /\ getActiveLayers s = (Throw TypeError, s, [])
    /\ getId s = (Throw TypeError, s, [])
    /\ getTrackInfo s = (Throw TypeError, s, [])
    /\ getSSRCs s = (Throw TypeError, s, [])
    /\ getMedia s = (Throw TypeError, s, []).
Proof.
  intros s Hs. apply stopped_true in Hs.
  repeat split; apply query_stopped; exact Hs.
Qed.

Lemma queries_after_stop_witness :
  getId (state_of (stop sample_mirror))
  = (Throw TypeError, state_of (stop sample_mirror), []).
Proof.
  pose proof (queries_after_stop (state_of (stop sample_mirror)) eq_refl)
    as (_ & _ & H & _).
  exact H.
Defined.



(** X3.  Over every sequence of calls on a constructed mirror, balanced
    or not, with [stop()] and exceptions in between, the "attached" and
    "detached" events come in turns and the first of them is "attached":
    there are never more "detached" than "attached" events, and at most
    one more "attached" than "detached". *)
Theorem attached_detached_alternate :
  forall (t ts : Handle) (h : Heap) (cs : list Call),
    let l := events (actions (entries_of (run cs (create t ts h)))) in
    alternates true l = true
    /\ (count_occ string_dec l "detached"
        <= count_occ string_dec l "attached")%nat
    /\ (count_occ string_dec l "attached"
        <= count_occ string_dec l "detached" + 1)%nat.
Proof.
  intros t ts h cs l.
  assert (H : alternates true l = true).
  { pose proof (run_alternates t _ _ cs _ (create_mirror_of t ts h)) as H.
    destruct (create_fields t ts h) as (_ & _ & Hc & _).
    rewrite Hc in H. exact H. }
  split; [exact H|].
  destruct (alternates_counts l true H) as (H1 & H2).
  split; lia.
Qed.

(** X4.  Over every sequence of calls on a constructed mirror the counter
    is the number of attach notifications the mirror has given to the
    original track minus the number of detach notifications: an event or
    none, each counted call notifies the track, and [stop()] and the calls
    that throw leave the counter as it is. *)
Theorem counter_is_net_forwarded :
  forall (t ts : Handle) (h : Heap) (cs : list Call),
    let r := run cs (create t ts h) in
    counter (this (state_of r)) = forwarded (actions (entries_of r)).
Proof.
  intros t ts h cs r.
  pose proof (run_forwarded t _ _ cs _ (create_mirror_of t ts h)) as H.
  destruct (create_fields t ts h) as (_ & _ & Hc & _).
  rewrite Hc in H. exact H.
Qed.

(** X5.  After the construction no call builds a native object or adds a
    listener: over every sequence of calls the allocator stands where the
    constructor left it and the calls made hold no [new] and no
    [AddListener]. *)
Theorem nothing_set_up_after_construction :
  forall (t ts : Handle) (h : Heap) (cs : list Call),
    let r := run cs (create t ts h) in
    next (heap (state_of r)) = next (heap (create t ts h))
    /\ added (actions (entries_of r)) = []
    /\ created (actions (entries_of r)) = [].
Proof.
  intros t ts h cs r.
  destruct (run_sets_up_nothing t _ _ cs _ (create_mirror_of t ts h))
    as [H1 H2].
  split; [exact H1|]. apply nothing_set_up. exact H2.
Qed.



(** X7.  When no two encodings of the original track share an id,
    [refresh()] on the live mirror asks for one key frame per encoding the
    track had at the construction, in their order and with the ssrc each
    had then, whatever the track holds at the time of the call. *)
Theorem refresh_uses_construction_ssrcs :
  forall (t ts : Handle) (h : Heap) (cs : list Call),
    let src := JsMap.values (st_encodings (tracks h t)) in
    let s := state_of (run cs (create t ts h)) in
    NoDup (map enc_id src) ->
    stopped s = false ->
    actions (entries_of (refresh s))
    = map (fun e => SendPLI (st_receiver (tracks h t))
                            (ps_ssrc (enc_source e))) src.
Proof.
  intros t ts h cs src s Hnd Hs.
  pose proof (run_mirror_of t _ _ cs _ (create_mirror_of t ts h)) as Hm.
  fold s in Hm.
  destruct Hm as [(Ht & Hr & He)|(Ht & _)];
    [|unfold stopped in Hs; rewrite Ht in Hs; discriminate].
  rewrite (create_built t ts h Hnd) in He. fold src in He.
  rewrite (refresh_live s _ Hr). project. rewrite He.
  unfold actions. rewrite map_map. cbn [act entry].
  pose proof (proj2 (built_read ts src (next h))) as E.
  apply (f_equal (map (SendPLI (st_receiver (tracks h t))))) in E.
  rewrite !map_map in E. exact E.
Qed.

Lemma refresh_uses_construction_ssrcs_witness :
  actions
    (entries_of
       (refresh
          (state_of
             (run [SourceChanges 0%nat
                     (replace_encoding (sample_encoding "0" 22%nat 9999))]
                  sample_mirror))))
  = [SendPLI 7%nat 1000].
Proof.
  apply (refresh_uses_construction_ssrcs 0%nat 1%nat sample_heap
           [SourceChanges 0%nat
              (replace_encoding (sample_encoding "0" 22%nat 9999))]).
  - vm_compute. repeat constructor. intros [].
  - reflexivity.
Defined.

(** X8.  A mirror constructed after another one, on the same track or on
    another, shares no native object with it; on the same track the two
    constructors add their multiplexers to the same packet sources, in the
    same order. *)
Theorem mirrors_own_distinct_objects :
  forall (t t' ts ts' : Handle) (h : Heap),
    let first := create t ts h in
    (forall x : Handle,
       In x (owned (encodings (this first))) ->
       ~ In x (owned (encodings (this (create t' ts' (heap first))))))
    /\ map fst (added (actions (entries_of (constructor t ts' (heap first)))))
       = map fst (added (actions (entries_of (constructor t ts h)))).
Proof.
  intros t t' ts ts' h first. split.
  - intros x H1 H2. apply owned_bounds in H1. apply owned_bounds in H2.
    fold first in H1. lia.
  - rewrite (proj1 (constructor_entries t ts' (heap first))).
    rewrite (proj1 (constructor_entries t ts h)). rewrite !actions_stamp.
    rewrite (proj1 (construct_trace_read _ _ _)).
    rewrite (proj1 (construct_trace_read _ _ _)).
    unfold first.
    destruct (create_fields t ts h) as (_ & _ & _ & E). rewrite E.
    reflexivity.
Qed.

Lemma mirrors_own_distinct_objects_witness :
  ~ In 100%nat
      (owned (encodings (this (create 0%nat 2%nat (heap sample_mirror))))).
Proof.
  apply (proj1 (mirrors_own_distinct_objects 0%nat 0%nat 1%nat 2%nat
                  sample_heap) 100%nat).
  left. reflexivity.
Defined.

(** X9.  A stopped mirror stays stopped: from a state in which a sequence
    of calls has left a constructed mirror stopped, no further sequence of
    calls changes a field of the mirror, the counter included, and none
    makes a call out of the class. *)
Theorem stopped_is_final :
  forall (t ts : Handle) (h : Heap) (cs more : list Call),
    let s := state_of (run cs (create t ts h)) in
    stopped s = true ->
    this (state_of (run more s)) = this s
    /\ stopped (state_of (run more s)) = true
    /\ entries_of (run more s) = [].
Proof.
  intros t ts h cs more s Hs.
  pose proof (run_mirror_of t _ _ cs _ (create_mirror_of t ts h)) as Hm.
  fold s in Hm.
  destruct Hm as [(Ht & _)|(Ht & _ & He)];
    [unfold stopped in Hs; rewrite Ht in Hs; discriminate|].
  destruct (run_stopped more s Ht He) as [E1 E2].
  repeat split; [exact E2| |exact E1].
  unfold stopped. rewrite E2. exact Hs.
Qed.

Lemma stopped_is_final_witness :
  let s := state_of (run [CallAttached; CallStop] sample_mirror) in
  let more := [CallDetached; CallAttached; CallRefresh; CallStop;
               CallQuery GetId] in
  this (state_of (run more s)) = this s
  /\ stopped (state_of (run more s)) = true
  /\ entries_of (run more s) = [].
Proof.
  apply (stopped_is_final 0%nat 1%nat sample_heap [CallAttached; CallStop]).
  reflexivity.
Defined.

(** X10.  The constructor makes three calls per encoding of the original
    track, in the order of the track: [new] of a multiplexer, [AddListener]
    of it on the encoding's packet source, [new] of a depacketizer; so one
    listener per encoding, on its packet source, and two native objects
    per encoding.  It emits nothing and leaves a live mirror on the track,
    with the track's receiver and counter 0. *)
Theorem constructor_calls :
  forall (t ts : Handle) (h : Heap),
    let r := constructor t ts h in
    let src := JsMap.values (st_encodings (tracks h t)) in
    entries_of r = stamp 0 (construct_trace ts (next h) src)
    /\ map fst (added (actions (entries_of r))) = map enc_source src
    /\ created (actions (entries_of r)) = seq (next h) (2 * List.length src)
    /\ events (actions (entries_of r)) = []
    /\ track (this (state_of r)) = Some t
    /\ receiver (this (state_of r)) = Some (st_receiver (tracks h t))
    /\ counter (this (state_of r)) = 0.
Proof.
  intros t ts h r src.
  destruct (constructor_entries t ts h) as [E _]. fold r src in E.
  destruct (construct_trace_read ts src (next h)) as (H1 & H2 & H3).
  destruct (create_fields t ts h) as (F1 & F2 & F3 & _).
  rewrite E, actions_stamp. repeat split; assumption.
Qed.



